(** * uxplay-windows tray supervisor (tray.py): a shallow embedding

    The development models the three managers of [tray.py]
    ([ArgumentManager], [ServerManager], [AutoStartManager]) as programs of
    a small state-and-exception monad over an explicit model of the
    operating system: a file system, the child process behind the tracked
    [Popen] object, the per-user [Run] registry key, and a chronological
    trace of the log lines, popups and process-control calls the program
    issues. *)

From Stdlib Require Import NArith ZArith String Ascii List Bool Lia.
From Stdlib Require Import Strings.Byte.
From stdpp Require Import base option list gmap.

Import ListNotations.
Local Open Scope N_scope.

(** ** Python text

    A Python [str] is a sequence of Unicode code points. *)

Definition char := N.
Definition str := list char.

(** ASCII literals of the source, as [str]. *)
Definition py (s : string) : str :=
  List.map N_of_ascii (list_ascii_of_string s).

(** [c in s] for a one-character [c]. *)
Definition char_in (c : char) (s : str) : bool := existsb (N.eqb c) s.

Fixpoint str_eqb (a b : str) : bool :=
  match a, b with
  | [], [] => true
  | x :: a', y :: b' => N.eqb x y && str_eqb a' b'
  | _, _ => false
  end.

Fixpoint startswith (p s : str) : bool :=
  match p, s with
  | [], _ => true
  | x :: p', y :: s' => N.eqb x y && startswith p' s'
  | _ :: _, [] => false
  end.

(** [sub in s] for strings: substring search. *)
Fixpoint str_contains (sub s : str) : bool :=
  startswith sub s ||
  match s with
  | [] => false
  | _ :: s' => str_contains sub s'
  end.

(** [str.isspace] for one code point (CPython's [Py_UNICODE_ISSPACE]). *)
Definition isspace (c : char) : bool :=
  ((0x09 <=? c) && (c <=? 0x0D)) || ((0x1C <=? c) && (c <=? 0x20)) ||
  (c =? 0x85) || (c =? 0xA0) || (c =? 0x1680) ||
  ((0x2000 <=? c) && (c <=? 0x200A)) ||
  (c =? 0x2028) || (c =? 0x2029) || (c =? 0x202F) || (c =? 0x205F) ||
  (c =? 0x3000).

Fixpoint lstrip (s : str) : str :=
  match s with
  | c :: s' => if isspace c then lstrip s' else s
  | [] => []
  end.

Definition rstrip (s : str) : str := rev (lstrip (rev s)).

(** [str.strip()] without arguments. *)
Definition strip (s : str) : str := rstrip (lstrip s).

(** ** Decoding a file opened in text mode

    [Path.read_text(encoding="utf-8")] decodes the bytes strictly and then
    applies universal-newline translation. *)

Definition is_cont (b : N) : bool := (0x80 <=? b) && (b <=? 0xBF).
Definition in_range (lo hi b : N) : bool := (lo <=? b) && (b <=? hi).
Definition cont_bits (b : N) : N := N.land b 0x3F.

(** Strict UTF-8: [None] stands for [UnicodeDecodeError]. *)
Fixpoint utf8_decode (bs : list byte) : option str :=
  match bs with
  | [] => Some []
  | x1 :: r1 =>
    let b1 := Byte.to_N x1 in
    if b1 <? 0x80 then cons b1 <$> utf8_decode r1
    else if in_range 0xC2 0xDF b1 then
      match r1 with
      | x2 :: r2 =>
        let b2 := Byte.to_N x2 in
        if is_cont b2
        then cons (N.shiftl (N.land b1 0x1F) 6 + cont_bits b2) <$> utf8_decode r2
        else None
      | _ => None
      end
    else if in_range 0xE0 0xEF b1 then
      match r1 with
      | x2 :: x3 :: r3 =>
        let b2 := Byte.to_N x2 in
        let b3 := Byte.to_N x3 in
        let lo := if b1 =? 0xE0 then 0xA0 else 0x80 in
        let hi := if b1 =? 0xED then 0x9F else 0xBF in
        if in_range lo hi b2 && is_cont b3
        then cons (N.shiftl (N.land b1 0x0F) 12 + N.shiftl (cont_bits b2) 6
                   + cont_bits b3) <$> utf8_decode r3
        else None
      | _ => None
      end
    else if in_range 0xF0 0xF4 b1 then
      match r1 with
      | x2 :: x3 :: x4 :: r4 =>
        let b2 := Byte.to_N x2 in
        let b3 := Byte.to_N x3 in
        let b4 := Byte.to_N x4 in
        let lo := if b1 =? 0xF0 then 0x90 else 0x80 in
        let hi := if b1 =? 0xF4 then 0x8F else 0xBF in
        if in_range lo hi b2 && is_cont b3 && is_cont b4
        then cons (N.shiftl (N.land b1 0x07) 18 + N.shiftl (cont_bits b2) 12
                   + N.shiftl (cont_bits b3) 6 + cont_bits b4)
             <$> utf8_decode r4
        else None
      | _ => None
      end
    else None
  end.

(** Universal newlines on input: CR LF and a lone CR become LF. *)
Fixpoint translate_newlines (s : str) : str :=
  match s with
  | [] => []
  | c :: s' =>
    if c =? 0x0D then
      match s' with
      | d :: s'' => if d =? 0x0A then 0x0A :: translate_newlines s''
                    else 0x0A :: translate_newlines s'
      | [] => [0x0A]
      end
    else c :: translate_newlines s'
  end.

(** ** [shlex.split]

    [shlex.split(s)] builds a lexer with [posix=True], sets
    [whitespace_split = True] and [commenters = ''], and collects the tokens
    until [get_token] returns [eof] ([None] in POSIX mode). *)

Definition whitespace : str := [0x20; 0x09; 0x0D; 0x0A].
Definition quotes : str := [0x27; 0x22].
Definition escape : str := [0x5C].
Definition escapedquotes : str := [0x22].

(** The values [self.state] and [escapedstate] take: [None] past the end of
    the input, [' '] between tokens, ['a'] inside a word, an opening quote
    character, or an escape character. *)
Inductive lex_state :=
| StEof
| StSpace
| StWord
| StQuote (q : char)
| StEscape (c : char).

Record shlex := {
  instream : str;
  state_of : lex_state;
}.

Inductive ValueError_msg := NoClosingQuotation | NoEscapedCharacter.

(** The [while True] loop of [read_token]. Every iteration reads one
    character (the empty string at end of input), so the loop is a recursion
    on the unread input. [token] and [quoted] are what the loop leaves when it
    breaks. The branches of the source that need [posix=False], a commenter or
    a punctuation character cannot be taken under [split]'s settings, and with
    [whitespace_split] set the [wordchars] branches and the last [elif] of
    each state do the same thing. *)
Fixpoint read_token_loop (input : str) (state : lex_state)
    (escapedstate : lex_state) (quoted : bool) (token : str)
    : ValueError_msg + (str * bool * shlex) :=
  let break_ tok q st rest :=
    inr (tok, q, {| instream := rest; state_of := st |}) in
  match input with
  | [] =>
    match state with
    | StEof => break_ [] quoted StEof []
    | StSpace => break_ token quoted StEof []
    | StQuote _ => inl NoClosingQuotation
    | StEscape _ => inl NoEscapedCharacter
    | StWord => break_ token quoted StEof []
    end
  | nextchar :: rest =>
    match state with
    | StEof => break_ [] quoted StEof rest
    | StSpace =>
      if char_in nextchar whitespace then
        if negb (str_eqb token []) || quoted
        then break_ token quoted StSpace rest
        else read_token_loop rest StSpace escapedstate quoted token
      else if char_in nextchar escape then
        read_token_loop rest (StEscape nextchar) StWord quoted token
      else if char_in nextchar quotes then
        read_token_loop rest (StQuote nextchar) escapedstate quoted token
      else
        read_token_loop rest StWord escapedstate quoted [nextchar]
    | StQuote q =>
      if nextchar =? q then
        read_token_loop rest StWord escapedstate true token
      else if char_in nextchar escape && char_in q escapedquotes then
        read_token_loop rest (StEscape nextchar) (StQuote q) true token
      else
        read_token_loop rest (StQuote q) escapedstate true (token ++ [nextchar])
    | StEscape e =>
      let keep_escape :=
        match escapedstate with
        | StQuote q => negb (nextchar =? e) && negb (nextchar =? q)
        | _ => false
        end in
      read_token_loop rest escapedstate escapedstate quoted
        ((if keep_escape then token ++ [e] else token) ++ [nextchar])
    | StWord =>
      if char_in nextchar whitespace then
        if negb (str_eqb token []) || quoted
        then break_ token quoted StSpace rest
        else read_token_loop rest StSpace escapedstate quoted token
      else if char_in nextchar quotes then
        read_token_loop rest (StQuote nextchar) escapedstate quoted token
      else if char_in nextchar escape then
        read_token_loop rest (StEscape nextchar) StWord quoted token
      else
        read_token_loop rest StWord escapedstate quoted (token ++ [nextchar])
    end
  end.

(** [read_token]: [None] is the end-of-input marker. *)
Definition read_token (lex : shlex) : ValueError_msg + (option str * shlex) :=
  match read_token_loop (instream lex) (state_of lex) StSpace false [] with
  | inl e => inl e
  | inr (result, quoted, lex') =>
    if negb quoted && str_eqb result []
    then inr (None, lex')
    else inr (Some result, lex')
  end.

(** [list(lex)]: tokens until the end marker. [fuel] bounds the number of
    [__next__] calls; [split_fuel_enough] shows the bound of [shlex_split] is
    never reached. *)
Fixpoint tokens (fuel : nat) (lex : shlex) : option (ValueError_msg + list str) :=
  match fuel with
  | O => None
  | S fuel' =>
    match read_token lex with
    | inl e => Some (inl e)
    | inr (None, _) => Some (inr [])
    | inr (Some tok, lex') =>
      match tokens fuel' lex' with
      | Some (inr toks) => Some (inr (tok :: toks))
      | r => r
      end
    end
  end.

Definition shlex_new (s : str) : shlex :=
  {| instream := s; state_of := StSpace |}.

Definition shlex_split (s : str) : option (ValueError_msg + list str) :=
  tokens (S (S (length s))) (shlex_new s).

(** ** Exceptions, outcomes and the monad of the program *)

Inductive exn :=
| FileNotFoundError
| FileExistsError
| PermissionError
| OSError
| UnicodeDecodeError
| ValueError (m : ValueError_msg)
| TypeError
| AttributeError
| TimeoutExpired.

(** [isinstance(e, ValueError)]: [UnicodeDecodeError] is a subclass. *)
Definition is_ValueError (e : exn) : bool :=
  match e with ValueError _ | UnicodeDecodeError => true | _ => false end.

Definition is_FileNotFoundError (e : exn) : bool :=
  match e with FileNotFoundError => true | _ => false end.

Definition is_TimeoutExpired (e : exn) : bool :=
  match e with TimeoutExpired => true | _ => false end.

(** [os.mkdir] failures other than [FileNotFoundError] reach the
    [except OSError] clause of [Path.mkdir]. *)
Definition is_OSError (e : exn) : bool :=
  match e with
  | FileNotFoundError | FileExistsError | PermissionError | OSError => true
  | _ => false
  end.

(** A call returns, raises, or blocks for ever. *)
Inductive outcome (A : Type) :=
| Ret (a : A)
| Raise (e : exn)
| Hang.
Arguments Ret {A} a.
Arguments Raise {A} e.
Arguments Hang {A}.

(** ** The operating system as the program sees it *)

(** A path is its list of components, innermost first, so that
    [Path.parent] is the tail; [[]] is the root, which always exists. *)
Definition path := list str.
Definition parent (p : path) : path := tail p.

Fixpoint join (sep : str) (l : list str) : str :=
  match l with
  | [] => []
  | [x] => x
  | x :: l' => x ++ sep ++ join sep l'
  end.

(** [str(path)] on Windows. *)
Definition Path_str (p : path) : str := join [0x5C] (rev p).

Inductive node := Dir | File (content : list byte).

(** How a child process reacts to a termination request. *)
Inductive reaction :=
| Dies (code : Z)
| Survives
| Denied (e : exn).

(** A [subprocess.Popen] object together with the operating-system side of
    the child it stands for: [exit_status] is what [poll()] reads. *)
Record Popen := {
  pid : N;
  args : list str;
  exit_status : option Z;
  on_terminate : reaction;
  on_kill : reaction;
}.

Definition poll (p : Popen) : option Z := exit_status p.

Inductive spawn_outcome :=
| SpawnRaises (e : exn)
| Spawned (child : Popen).

(** The data [winreg.QueryValueEx] returns, by registry type: [REG_SZ] and
    [REG_EXPAND_SZ] give a [str], [REG_MULTI_SZ] a list of [str],
    [REG_DWORD] and [REG_QWORD] an [int], binary types [bytes] or [None]. *)
Inductive reg_data :=
| RegStr (s : str)
| RegMulti (l : list str)
| RegInt (n : N)
| RegBytes (b : list byte)
| RegNone.

Inductive run_key_state :=
| KeyMissing
| KeyPresent (readable writable : bool) (values : gmap str reg_data).

Inductive level := INFO | WARNING | ERROR.

Inductive message :=
| MsgEnsuringArgs (p : path)
| MsgCreatedArgs
| MsgArgsMissing
| MsgParseError (e : exn)
| MsgAlreadyRunning (pid : N)
| MsgExeNotFound (p : path)
| MsgStarting (cmd : list str)
| MsgStarted (pid : N)
| MsgFailedLaunch
| MsgFailedLaunchWith (e : exn)
| MsgNotRunning
| MsgStopping (pid : N)
| MsgStoppedCleanly
| MsgKillingIt
| MsgErrorStopping
| MsgErrorStoppingWith (e : exn)
| MsgErrorCheckingAutostart
| MsgAutostartEnabled
| MsgFailedEnable
| MsgAutostartDisabled
| MsgNoAutostartEntry
| MsgFailedDisable.

(** What the program does to the outside, in order. *)
Inductive event :=
| Log (lvl : level) (m : message)
| ShowError (m : message)
| ShowWarning (m : message)
| CallPopen (cmd : list str) (create_no_window : bool)
| CallTerminate (pid : N)
| CallWait (pid : N) (timeout : option N)
| CallKill (pid : N).

Record state := {
  fs : gmap path node;
  spawn_oracle : nat -> list str -> spawn_outcome;
  spawns : nat;
  run_key : run_key_state;
  process : option Popen;
  trace : list event;
}.

Definition set_fs (f : gmap path node) (s : state) : state :=
  {| fs := f; spawn_oracle := spawn_oracle s; spawns := spawns s;
     run_key := run_key s; process := process s; trace := trace s |}.

Definition set_spawns (n : nat) (s : state) : state :=
  {| fs := fs s; spawn_oracle := spawn_oracle s; spawns := n;
     run_key := run_key s; process := process s; trace := trace s |}.

Definition set_run_key (k : run_key_state) (s : state) : state :=
  {| fs := fs s; spawn_oracle := spawn_oracle s; spawns := spawns s;
     run_key := k; process := process s; trace := trace s |}.

Definition set_process (p : option Popen) (s : state) : state :=
  {| fs := fs s; spawn_oracle := spawn_oracle s; spawns := spawns s;
     run_key := run_key s; process := p; trace := trace s |}.

Definition add_event (e : event) (s : state) : state :=
  {| fs := fs s; spawn_oracle := spawn_oracle s; spawns := spawns s;
     run_key := run_key s; process := process s; trace := trace s ++ [e] |}.

Definition M (A : Type) : Type := state -> outcome A * state.

Definition ret {A} (a : A) : M A := fun s => (Ret a, s).
Definition raise {A} (e : exn) : M A := fun s => (Raise e, s).
Definition hang {A} : M A := fun s => (Hang, s).

Definition bind {A B} (m : M A) (k : A -> M B) : M B :=
  fun s =>
    match m s with
    | (Ret a, s') => k a s'
    | (Raise e, s') => (Raise e, s')
    | (Hang, s') => (Hang, s')
    end.

Declare Scope py_scope.
Delimit Scope py_scope with py.
Notation "x <- m ;; k" := (bind m (fun x => k))
  (at level 100, m at next level, right associativity) : py_scope.
Notation "m ;; k" := (bind m (fun _ => k))
  (at level 100, right associativity) : py_scope.
Local Open Scope py_scope.

(** [try: body except ...: handler]. [handlers e] is the body of the first
    clause that matches [e], if one does; what a handler raises propagates. *)
Definition try_except {A} (body : M A) (handlers : exn -> option (M A)) : M A :=
  fun s =>
    match body s with
    | (Raise e, s') =>
      match handlers e with
      | Some h => h s'
      | None => (Raise e, s')
      end
    | r => r
    end.

(** [try: body finally: fin]. The [finally] suite runs on return and on
    raise, and the pending outcome is kept when it completes. *)
Definition try_finally {A} (body : M A) (fin : M unit) : M A :=
  fun s =>
    match body s with
    | (Hang, s') => (Hang, s')
    | (r, s') =>
      match fin s' with
      | (Ret _, s'') => (r, s'')
      | (Raise e, s'') => (Raise e, s'')
      | (Hang, s'') => (Hang, s'')
      end
    end.

Definition emit (e : event) : M unit := fun s => (Ret tt, add_event e s).

Definition logging_info (m : message) : M unit := emit (Log INFO m).
Definition logging_warning (m : message) : M unit := emit (Log WARNING m).
Definition logging_error (m : message) : M unit := emit (Log ERROR m).
(** [logging.exception] logs at level [ERROR]. *)
Definition logging_exception (m : message) : M unit := emit (Log ERROR m).
Definition show_error (m : message) : M unit := emit (ShowError m).
Definition show_warning (m : message) : M unit := emit (ShowWarning m).

(** ** [pathlib] *)

Definition fs_lookup (f : gmap path node) (p : path) : option node :=
  match p with
  | [] => Some Dir
  | _ => f !! p
  end.

Definition Path_exists (p : path) : M bool :=
  fun s => (Ret (match fs_lookup (fs s) p with Some _ => true | None => false end), s).

Definition is_dir (f : gmap path node) (p : path) : bool :=
  match fs_lookup f p with Some Dir => true | _ => false end.

(** [os.mkdir]. *)
Definition os_mkdir (p : path) : M unit :=
  fun s =>
    match fs_lookup (fs s) p with
    | Some _ => (Raise FileExistsError, s)
    | None =>
      if is_dir (fs s) (parent p)
      then (Ret tt, set_fs (<[p := Dir]> (fs s)) s)
      else (Raise FileNotFoundError, s)
    end.

(** [Path.mkdir(parents=False, exist_ok=...)]: the [except OSError] clause. *)
Definition mkdir_here (p : path) (exist_ok : bool) : M unit :=
  try_except (os_mkdir p)
    (fun e =>
       if is_FileNotFoundError e then Some (raise e)
       else Some (fun s =>
         if negb exist_ok || negb (is_dir (fs s) p)
         then (Raise e, s) else (Ret tt, s))).

(** [Path.mkdir(parents=True, exist_ok=...)]: on [FileNotFoundError] the
    parent is made with [parents=True, exist_ok=True] and the directory itself
    is then made with [parents=False]. *)
Fixpoint mkdir_parents (p : path) (exist_ok : bool) : M unit :=
  try_except (os_mkdir p)
    (fun e =>
       if is_FileNotFoundError e then
         match p with
         | [] => Some (raise e)
         | _ :: up => Some (mkdir_parents up true ;; mkdir_here p exist_ok)
         end
       else Some (fun s =>
         if negb exist_ok || negb (is_dir (fs s) p)
         then (Raise e, s) else (Ret tt, s))).

(** [Path.read_text(encoding="utf-8")]. *)
Definition read_text (p : path) : M str :=
  fun s =>
    match fs_lookup (fs s) p with
    | None => (Raise FileNotFoundError, s)
    | Some Dir => (Raise PermissionError, s)
    | Some (File bytes) =>
      match utf8_decode bytes with
      | None => (Raise UnicodeDecodeError, s)
      | Some text => (Ret (translate_newlines text), s)
      end
    end.

(** [Path.write_text(data, encoding="utf-8")], on the encoded [data]. *)
Definition write_text (p : path) (data : list byte) : M unit :=
  fun s =>
    match fs_lookup (fs s) p with
    | Some Dir => (Raise PermissionError, s)
    | _ =>
      if is_dir (fs s) (parent p)
      then (Ret tt, set_fs (<[p := File data]> (fs s)) s)
      else (Raise FileNotFoundError, s)
    end.

(** [shlex.split] as a call of the program: a malformed text raises
    [ValueError]. *)
Definition shlex_split_call (text : str) : M (list str) :=
  match shlex_split text with
  | Some (inr toks) => ret toks
  | Some (inl m) => raise (ValueError m)
  | None => hang
  end.

(** ** [subprocess] *)

Definition CREATE_NO_WINDOW : bool := true.

(** [subprocess.Popen(cmd, creationflags=...)]: the oracle of the state says
    whether the spawn raises and, if not, which child comes to life. *)
Definition Popen_new (cmd : list str) (flag : bool) : M Popen :=
  fun s =>
    let s1 := set_spawns (S (spawns s)) (add_event (CallPopen cmd flag) s) in
    match spawn_oracle s (spawns s) cmd with
    | SpawnRaises e => (Raise e, s1)
    | Spawned c =>
      (Ret {| pid := pid c; args := cmd; exit_status := exit_status c;
              on_terminate := on_terminate c; on_kill := on_kill c |}, s1)
    end.

Definition exited (code : Z) (p : Popen) : Popen :=
  {| pid := pid p; args := args p; exit_status := Some code;
     on_terminate := on_terminate p; on_kill := on_kill p |}.

(** A method call on [self.process]; on [None] Python raises
    [AttributeError]. *)
Definition on_process {A} (method : Popen -> M A) : M A :=
  fun s =>
    match process s with
    | None => (Raise AttributeError, s)
    | Some p => method p s
    end.

Definition signal (r : reaction) (p : Popen) : M unit :=
  match exit_status p with
  | Some _ => ret tt
  | None =>
    match r with
    | Dies code => fun s => (Ret tt, set_process (Some (exited code p)) s)
    | Survives => ret tt
    | Denied e => raise e
    end
  end.

(** [self.process.terminate()]. *)
Definition Popen_terminate : M unit :=
  on_process (fun p => emit (CallTerminate (pid p)) ;; signal (on_terminate p) p).

(** [self.process.kill()]. *)
Definition Popen_kill : M unit :=
  on_process (fun p => emit (CallKill (pid p)) ;; signal (on_kill p) p).

(** [self.process.wait(timeout)]: a child that is still running makes a
    bounded wait raise [TimeoutExpired] and an unbounded wait block. *)
Definition Popen_wait (timeout : option N) : M Z :=
  on_process (fun p =>
    emit (CallWait (pid p) timeout) ;;
    match exit_status p, timeout with
    | Some code, _ => ret code
    | None, Some _ => raise TimeoutExpired
    | None, None => hang
    end).

(** ** [ArgumentManager] *)

Record ArgumentManager := { file_path : path }.

Definition ensure_exists (self : ArgumentManager) : M unit :=
  logging_info (MsgEnsuringArgs (file_path self)) ;;
  mkdir_parents (parent (file_path self)) true ;;
  there <- Path_exists (file_path self) ;;
  if negb there then
    write_text (file_path self) [] ;;
    logging_info MsgCreatedArgs
  else ret tt.

Definition read_args (self : ArgumentManager) : M (list str) :=
  there <- Path_exists (file_path self) ;;
  if negb there then
    logging_warning MsgArgsMissing ;;
    ret []
  else
    raw <- read_text (file_path self) ;;
    let text := strip raw in
    if str_eqb text [] then ret []
    else
      try_except (shlex_split_call text)
        (fun e =>
           if is_ValueError e then
             Some (logging_error (MsgParseError e) ;;
                   show_error (MsgParseError e) ;;
                   ret [])
           else None).

(** ** [ServerManager]

    [exe_path] and [arg_mgr] never change; the attribute [process] is the
    field of the same name of the state. *)

Record ServerManager := {
  exe_path : path;
  arg_mgr : ArgumentManager;
}.

Definition get_process : M (option Popen) := fun s => (Ret (process s), s).
Definition assign_process (p : option Popen) : M unit :=
  fun s => (Ret tt, set_process p s).

(** [self.process and self.process.poll() is None]. *)
Definition running (p : option Popen) : bool :=
  match p with
  | Some c => match poll c with None => true | Some _ => false end
  | None => false
  end.

Definition tracked_pid (p : option Popen) : N :=
  match p with Some c => pid c | None => 0 end.

Definition start (self : ServerManager) : M unit :=
  p <- get_process ;;
  if running p then
    logging_info (MsgAlreadyRunning (tracked_pid p)) ;;
    show_warning (MsgAlreadyRunning (tracked_pid p))
  else
    there <- Path_exists (exe_path self) ;;
    if negb there then
      logging_error (MsgExeNotFound (exe_path self)) ;;
      show_error (MsgExeNotFound (exe_path self))
    else
      toks <- read_args (arg_mgr self) ;;
      let cmd := Path_str (exe_path self) :: toks in
      logging_info (MsgStarting cmd) ;;
      try_except
        (c <- Popen_new cmd CREATE_NO_WINDOW ;;
         assign_process (Some c) ;;
         logging_info (MsgStarted (pid c)))
        (fun e =>
           Some (logging_exception MsgFailedLaunch ;;
                 show_error (MsgFailedLaunchWith e))).

Definition grace_period : N := 3.

Definition stop (self : ServerManager) : M unit :=
  p <- get_process ;;
  if negb (running p) then
    logging_info MsgNotRunning
  else
    logging_info (MsgStopping (tracked_pid p)) ;;
    try_finally
      (try_except
         (Popen_terminate ;;
          Popen_wait (Some grace_period) ;;
          logging_info MsgStoppedCleanly)
         (fun e =>
            if is_TimeoutExpired e then
              Some (logging_warning MsgKillingIt ;;
                    Popen_kill ;;
                    Popen_wait None ;;
                    ret tt)
            else
              Some (logging_exception MsgErrorStopping ;;
                    show_error (MsgErrorStoppingWith e))))
      (assign_process None).

(** ** [winreg] and [AutoStartManager] *)

Inductive access := KEY_READ | KEY_SET_VALUE.

(** [with winreg.OpenKey(HKEY_CURRENT_USER, RUN_KEY, 0, access) as key: body]. *)
Definition with_OpenKey {A} (a : access) (body : M A) : M A :=
  fun s =>
    match run_key s with
    | KeyMissing => (Raise FileNotFoundError, s)
    | KeyPresent r w _ =>
      if match a with KEY_READ => r | KEY_SET_VALUE => w end
      then body s
      else (Raise PermissionError, s)
    end.

Definition QueryValueEx (name : str) : M reg_data :=
  fun s =>
    match run_key s with
    | KeyMissing => (Raise OSError, s)
    | KeyPresent _ _ vals =>
      match vals !! name with
      | Some d => (Ret d, s)
      | None => (Raise FileNotFoundError, s)
      end
    end.

(** [winreg.SetValueEx(key, name, 0, winreg.REG_SZ, value)]. *)
Definition SetValueEx (name : str) (value : str) : M unit :=
  fun s =>
    match run_key s with
    | KeyMissing => (Raise OSError, s)
    | KeyPresent r w vals =>
      (Ret tt, set_run_key (KeyPresent r w (<[name := RegStr value]> vals)) s)
    end.

Definition DeleteValue (name : str) : M unit :=
  fun s =>
    match run_key s with
    | KeyMissing => (Raise OSError, s)
    | KeyPresent r w vals =>
      match vals !! name with
      | Some _ => (Ret tt, set_run_key (KeyPresent r w (delete name vals)) s)
      | None => (Raise FileNotFoundError, s)
      end
    end.

(** [x in val] for a [str] [x]: substring search in a [str], membership in a
    list, [TypeError] for [int], [bytes] and [None]. *)
Definition py_in (x : str) (val : reg_data) : M bool :=
  match val with
  | RegStr s => ret (str_contains x s)
  | RegMulti l => ret (existsb (str_eqb x) l)
  | RegInt _ | RegBytes _ | RegNone => raise TypeError
  end.

Record AutoStartManager := {
  app_name : str;
  exe_cmd : str;
}.

Definition is_enabled (self : AutoStartManager) : M bool :=
  try_except
    (with_OpenKey KEY_READ
       (val <- QueryValueEx (app_name self) ;;
        py_in (exe_cmd self) val))
    (fun e =>
       if is_FileNotFoundError e then Some (ret false)
       else Some (logging_exception MsgErrorCheckingAutostart ;; ret false)).

Definition enable (self : AutoStartManager) : M unit :=
  try_except
    (with_OpenKey KEY_SET_VALUE (SetValueEx (app_name self) (exe_cmd self)) ;;
     logging_info MsgAutostartEnabled)
    (fun e => Some (logging_exception MsgFailedEnable)).

Definition disable (self : AutoStartManager) : M unit :=
  try_except
    (with_OpenKey KEY_SET_VALUE (DeleteValue (app_name self)) ;;
     logging_info MsgAutostartDisabled)
    (fun e =>
       if is_FileNotFoundError e then Some (logging_info MsgNoAutostartEntry)
       else Some (logging_exception MsgFailedDisable)).

Definition toggle (self : AutoStartManager) : M unit :=
  on <- is_enabled self ;;
  if on then disable self else enable self.

(** ** Auxiliary definitions for the statements *)

(** The state after the program has issued the events [l], in order. *)
Definition add_events (l : list event) (s : state) : state :=
  fold_left (fun s' e => add_event e s') l s.

(** Some existing component on the way from [p] up to the root is a regular
    file, so that no directory can be made at [p]. *)
Fixpoint blocked (f : gmap path node) (p : path) : bool :=
  match p with
  | [] => false
  | _ :: up =>
    match f !! p with
    | Some (File _) => true
    | Some Dir => false
    | None => blocked f up
    end
  end.

(** What [exe_cmd in val] comes to for the data of a registry value. *)
Definition entry_matches (cmd : str) (d : reg_data) : bool :=
  match d with
  | RegStr v => str_contains cmd v
  | RegMulti l => existsb (str_eqb cmd) l
  | RegInt _ | RegBytes _ | RegNone => false
  end.

(** The answer of [is_enabled] as a function of the [Run] key. *)
Definition enabled_in (self : AutoStartManager) (k : run_key_state) : bool :=
  match k with
  | KeyPresent true _ vals =>
    match vals !! app_name self with
    | Some d => entry_matches (exe_cmd self) d
    | None => false
    end
  | _ => false
  end.

(** What [Popen] builds from the child the oracle hands out. *)
Definition popen_of (cmd : list str) (c : Popen) : Popen :=
  {| pid := pid c; args := cmd; exit_status := exit_status c;
     on_terminate := on_terminate c; on_kill := on_kill c |}.

(** The configuration [Application.__init__] builds, on a sample machine. *)
Module Sample.

Definition appdata_dir : path := [py "uxplay-windows"; py "Roaming"; py "C:"].
Definition arguments_file : path := py "arguments.txt" :: appdata_dir.
Definition uxplay_exe : path := [py "uxplay.exe"; py "bin"; py "app"; py "C:"].

Definition arg_store : ArgumentManager := {| file_path := arguments_file |}.
Definition server : ServerManager :=
  {| exe_path := uxplay_exe; arg_mgr := arg_store |}.
Definition autostart : AutoStartManager :=
  {| app_name := py "uxplay-windows"; exe_cmd := py "C:\app\tray.exe" |}.

(** A child that exits when asked to, one that has to be killed, and one
    that has exited on its own. *)
Definition polite : Popen :=
  {| pid := 4242; args := [Path_str uxplay_exe]; exit_status := None;
     on_terminate := Dies 1; on_kill := Dies 1 |}.
Definition stubborn : Popen :=
  {| pid := 4243; args := [Path_str uxplay_exe]; exit_status := None;
     on_terminate := Survives; on_kill := Dies 1 |}.
Definition locked : Popen :=
  {| pid := 4244; args := [Path_str uxplay_exe]; exit_status := None;
     on_terminate := Denied PermissionError; on_kill := Dies 1 |}.
Definition crashed : Popen :=
  {| pid := 4245; args := [Path_str uxplay_exe]; exit_status := Some 3%Z;
     on_terminate := Dies 1; on_kill := Dies 1 |}.

(** The argument file of the end-to-end example:
    -fps 30 -p, then My Room in double quotes. *)
Definition fps_room : list byte :=
  list_byte_of_string "-fps 30 -p " ++ [x22] ++
  list_byte_of_string "My Room" ++ [x22].

Definition disk (arguments : list byte) : gmap path node :=
  <[arguments_file := File arguments]>
    (<[uxplay_exe := File []]>
       (<[parent uxplay_exe := Dir]>
          (<[parent (parent uxplay_exe) := Dir]>
             (<[appdata_dir := Dir]>
                (<[parent appdata_dir := Dir]>
                   (<[[py "C:"] := Dir]> ∅)))))).

Definition machine (arguments : list byte) (spawn : spawn_outcome)
    (key : run_key_state) (tracked : option Popen) : state :=
  {| fs := disk arguments;
     spawn_oracle := fun _ _ => spawn;
     spawns := 0;
     run_key := key;
     process := tracked;
     trace := [] |}.

(** The [Run] key holding one value under the application's name. *)
Definition run_key_with (d : reg_data) : run_key_state :=
  KeyPresent true true {[ app_name autostart := d ]}.

(** An argument file saved in a one-byte code page: -p Caf and then the
    single byte E9 for the accented letter. *)
Definition ansi_cafe : list byte := list_byte_of_string "-p Caf" ++ [xe9].

(** A disk on which only the drive exists. *)
Definition bare_disk : gmap path node := <[[py "C:"] := Dir]> ∅.

End Sample.

(** ** [Paths] *)

(** What [Paths.__init__] reads from the [sys] module. *)
Record sys_module := {
  frozen : bool;
  MEIPASS : option path;
  executable : path;
}.

(** [p / name]. *)
Definition child (p : path) (name : str) : path := name :: p.

Record Paths := {
  resource_dir : path;
  icon_file : path;
  uxplay_exe : path;
  appdata_dir : path;
  arguments_file : path;
}.

Definition Path_is_dir (p : path) : M bool :=
  fun s => (Ret (is_dir (fs s) p), s).

(** [Paths.__init__]; [script] is [Path(__file__).resolve()] and
    [APPDATA_DIR] the module constant of that name. *)
Definition Paths_init (sys : sys_module) (script : path) (APPDATA_DIR : path)
    : M Paths :=
  let cand :=
    if frozen sys then
      match MEIPASS sys with
      | Some unpacked => unpacked
      | None => parent (executable sys)
      end
    else parent script in
  let internal := child cand (py "_internal") in
  has_internal <- Path_is_dir internal ;;
  let resource_dir := if has_internal then internal else cand in
  let ux1 := child (child resource_dir (py "bin")) (py "uxplay.exe") in
  let ux2 := child resource_dir (py "uxplay.exe") in
  has_ux1 <- Path_exists ux1 ;;
  ret {| resource_dir := resource_dir;
         icon_file := child resource_dir (py "icon.ico");
         uxplay_exe := if has_ux1 then ux1 else ux2;
         appdata_dir := APPDATA_DIR;
         arguments_file := child APPDATA_DIR (py "arguments.txt") |}.

(** ** [TrayIcon]

    The menu actions run the managers and, besides, log lines of their own,
    open a file with [os.startfile] and stop the icon. Their state is the
    state of the managers together with the icon and an oracle for
    [os.startfile]; their trace holds the events of the managers, wrapped in
    [Core], between their own. *)

Inductive ui_message :=
| MsgRestarting
| MsgExitingTray
| MsgOpenedArgs
| MsgFailedOpenArgs
| MsgFailedOpenArgsWith (e : exn).

Inductive ui_event :=
| Core (e : event)
| UiLog (lvl : level) (m : ui_message)
| UiShowError (m : ui_message)
| CallStartfile (file : str)
| CallIconStop.

Record desktop := {
  core : state;
  startfile_oracle : str -> option exn;
  icon_running : bool;
  ui_trace : list ui_event;
}.

Definition UI (A : Type) : Type := desktop -> outcome A * desktop.

Definition ui_ret {A} (a : A) : UI A := fun d => (Ret a, d).

Definition ui_bind {A B} (m : UI A) (k : A -> UI B) : UI B :=
  fun d =>
    match m d with
    | (Ret a, d') => k a d'
    | (Raise e, d') => (Raise e, d')
    | (Hang, d') => (Hang, d')
    end.

Definition ui_try_except {A} (body : UI A) (handlers : exn -> option (UI A))
    : UI A :=
  fun d =>
    match body d with
    | (Raise e, d') =>
      match handlers e with
      | Some h => h d'
      | None => (Raise e, d')
      end
    | r => r
    end.

Definition ui_emit (e : ui_event) : UI unit :=
  fun d =>
    (Ret tt, {| core := core d; startfile_oracle := startfile_oracle d;
                icon_running := icon_running d;
                ui_trace := ui_trace d ++ [e] |}).

(** A call into a manager: its events join the trace in the order they
    were issued. *)
Definition lift {A} (m : M A) : UI A :=
  fun d =>
    let '(r, s') := m (core d) in
    (r, {| core := s'; startfile_oracle := startfile_oracle d;
           icon_running := icon_running d;
           ui_trace := ui_trace d
                       ++ List.map Core (drop (length (trace (core d))) (trace s')) |}).

(** [os.startfile(file)]. *)
Definition os_startfile (file : str) : UI unit :=
  ui_bind (ui_emit (CallStartfile file)) (fun _ d =>
    match startfile_oracle d file with
    | Some e => (Raise e, d)
    | None => (Ret tt, d)
    end).

(** [self.icon.stop()]. *)
Definition icon_stop : UI unit :=
  ui_bind (ui_emit CallIconStop) (fun _ d =>
    (Ret tt, {| core := core d; startfile_oracle := startfile_oracle d;
                icon_running := false; ui_trace := ui_trace d |})).

Record TrayIcon := {
  server_mgr : ServerManager;
  tray_arg_mgr : ArgumentManager;
  auto_mgr : AutoStartManager;
}.

Definition TrayIcon_restart (self : TrayIcon) : UI unit :=
  ui_bind (ui_emit (UiLog INFO MsgRestarting)) (fun _ =>
  ui_bind (lift (stop (server_mgr self))) (fun _ =>
  lift (start (server_mgr self)))).

Definition TrayIcon_open_args (self : TrayIcon) : UI unit :=
  ui_bind (lift (ensure_exists (tray_arg_mgr self))) (fun _ =>
  ui_try_except
    (ui_bind (os_startfile (Path_str (file_path (tray_arg_mgr self)))) (fun _ =>
     ui_emit (UiLog INFO MsgOpenedArgs)))
    (fun e =>
       Some (ui_bind (ui_emit (UiLog ERROR MsgFailedOpenArgs)) (fun _ =>
             ui_emit (UiShowError (MsgFailedOpenArgsWith e)))))).

Definition TrayIcon_exit (self : TrayIcon) : UI unit :=
  ui_bind (ui_emit (UiLog INFO MsgExitingTray)) (fun _ =>
  ui_bind (lift (stop (server_mgr self))) (fun _ =>
  icon_stop)).

(** ** More auxiliary definitions *)

(** Every node of the file system sits in a directory. *)
Definition fs_wf (f : gmap path node) : Prop :=
  forall p n, f !! p = Some n -> is_dir f (parent p) = true.

(** Splitting at the characters of [whitespace], empty pieces dropped:
    [cur] is the piece being read. *)
Fixpoint words_from (cur : str) (s : str) : list str :=
  match s with
  | [] => if str_eqb cur [] then [] else [cur]
  | c :: s' =>
    if char_in c whitespace
    then if str_eqb cur [] then words_from [] s' else cur :: words_from [] s'
    else words_from (cur ++ [c]) s'
  end.

Definition words (s : str) : list str := words_from [] s.

(** A character [shlex] gives a meaning of its own: a quote or the escape. *)
Definition is_special (c : char) : bool := char_in c quotes || char_in c escape.

(** Log lines and popups, as opposed to calls on processes. *)
Definition is_report (e : event) : bool :=
  match e with
  | Log _ _ | ShowError _ | ShowWarning _ => true
  | _ => false
  end.

(** The bounded wait of [stop] ends in [TimeoutExpired]. *)
Definition grace_expires (p : Popen) : bool :=
  match on_terminate p with
  | Survives => true
  | Denied e => is_TimeoutExpired e
  | Dies _ => false
  end.

(** Two states of the [Run] key that differ at most in the value [name]. *)
Definition same_but (name : str) (k k' : run_key_state) : Prop :=
  match k, k' with
  | KeyMissing, KeyMissing => True
  | KeyPresent r w vals, KeyPresent r' w' vals' =>
    r = r' /\ w = w' /\ forall other, other <> name -> vals' !! other = vals !! other
  | _, _ => False
  end.

(** * Properties *)

(** ** Text *)

Lemma str_eqb_eq (a b : str) : str_eqb a b = true <-> a = b.
Proof.
  revert b. induction a as [|x a IH]; intros [|y b]; simpl; try easy.
  rewrite andb_true_iff, N.eqb_eq, IH. split.
  - intros [-> ->]. reflexivity.
  - intros H. injection H as -> ->. easy.
Qed.

Lemma str_eqb_nil (a : str) : str_eqb a [] = true <-> a = [].
Proof. apply str_eqb_eq. Qed.

Lemma startswith_spec (p s : str) :
  startswith p s = true <-> exists post, s = p ++ post.
Proof.
  revert s. induction p as [|x p IH]; intros s; simpl.
  - split; [intros _; exists s; reflexivity | easy].
  - destruct s as [|y s].
    + split; [easy | intros [post H]; discriminate H].
    + rewrite andb_true_iff, N.eqb_eq, IH. split.
      * intros [-> [post ->]]. exists post. reflexivity.
      * intros [post H]. injection H as -> ->. split; [easy | now exists post].
Qed.

(** [str_contains] is substring search. *)
Lemma str_contains_spec (sub s : str) :
  str_contains sub s = true <-> exists pre post, s = pre ++ sub ++ post.
Proof.
  induction s as [|y s IH].
  - simpl. rewrite orb_false_r, startswith_spec. split.
    + intros [post H]. exists [], post. exact H.
    + intros [pre [post H]]. destruct pre as [|z pre]; [|discriminate H].
      exists post. exact H.
  - cbn [str_contains]. rewrite orb_true_iff, startswith_spec, IH. split.
    + intros [[post H] | [pre [post H]]].
      * exists [], post. exact H.
      * exists (y :: pre), post. rewrite H. reflexivity.
    + intros [pre [post H]]. destruct pre as [|z pre].
      * left. exists post. exact H.
      * right. injection H as -> ->. now exists pre, post.
Qed.

Lemma str_contains_refl (s : str) : str_contains s s = true.
Proof.
  apply str_contains_spec. exists [], []. now rewrite app_nil_r.
Qed.

Lemma existsb_str_eqb (x : str) (l : list str) :
  existsb (str_eqb x) l = true <-> In x l.
Proof.
  rewrite existsb_exists. split.
  - intros [y [Hy He]]. apply str_eqb_eq in He. now subst.
  - intros H. exists x. split; [exact H | now apply str_eqb_eq].
Qed.

Lemma lstrip_blank (s : str) : forallb isspace s = true -> lstrip s = [].
Proof.
  induction s as [|c s IH]; simpl; [easy|].
  intros H. apply andb_true_iff in H as [-> H]. auto.
Qed.

(** Whitespace-only text strips to the empty string. *)
Lemma strip_blank (s : str) : forallb isspace s = true -> strip s = [].
Proof.
  intros H. unfold strip, rstrip. now rewrite (lstrip_blank s H).
Qed.

(** ** The lexer terminates *)

Lemma read_token_loop_length input :
  forall st es q tok t q' lex',
    read_token_loop input st es q tok = inr (t, q', lex') ->
    (length (instream lex') <= length input)%nat.
Proof.
  induction input as [|c rest IH]; intros st es q tok t q' lex' H.
  - destruct st; simpl in H; try discriminate H;
      injection H as <- <- <-; simpl; lia.
  - cbn [read_token_loop] in H.
    destruct st; simpl length;
      repeat match type of H with
             | context [if ?b then _ else _] => destruct b
             end;
      first [ discriminate H
            | injection H as <- <- <-; simpl; lia
            | apply IH in H; lia ].
Qed.

Lemma read_token_loop_eof st es q tok t q' lex' :
  read_token_loop [] st es q tok = inr (t, q', lex') ->
  q' = q /\ (t = tok \/ t = []).
Proof.
  destruct st; simpl; intros H; try discriminate H;
    injection H as <- <- <-; auto.
Qed.

Lemma read_token_progress lex tok lex' :
  read_token lex = inr (Some tok, lex') ->
  (length (instream lex') < length (instream lex))%nat.
Proof.
  unfold read_token.
  destruct (read_token_loop (instream lex) (state_of lex) StSpace false [])
    as [e | [[t q'] lx]] eqn:E; [discriminate|].
  intros H.
  destruct (instream lex) as [|c rest] eqn:Ein.
  - apply read_token_loop_eof in E as [-> [-> | ->]]; discriminate H.
  - assert (Hlx : lx = lex').
    { destruct (negb q' && str_eqb t []); congruence. }
    subst lx.
    cbn [read_token_loop] in E.
    destruct (state_of lex);
      repeat match type of E with
             | context [if ?b then _ else _] => destruct b
             end;
      first [ discriminate E
            | injection E as <- <- <-; simpl in *;
              first [ discriminate H | lia ]
            | apply read_token_loop_length in E; simpl; lia ].
Qed.

Lemma tokens_enough fuel :
  forall lex, (length (instream lex) < fuel)%nat ->
              exists r, tokens fuel lex = Some r.
Proof.
  induction fuel as [|fuel IH]; intros lex Hlt; [lia|].
  simpl. destruct (read_token lex) as [e | [[tok|] lex']] eqn:E; eauto.
  apply read_token_progress in E.
  destruct (IH lex') as [r Hr]; [lia|].
  rewrite Hr. destruct r; eauto.
Qed.

(** [shlex.split] returns or raises on every text: its fuel never runs
    out. *)
Lemma split_fuel_enough (s : str) : exists r, shlex_split s = Some r.
Proof. apply tokens_enough. simpl. lia. Qed.

(** ** Events leave the rest of the state alone *)

Section Frames.

Variable l : list event.

Lemma add_events_fs s : fs (add_events l s) = fs s.
Proof. revert s. induction l as [|e l' IH]; intros s; simpl; [easy|]. now rewrite IH. Qed.

Lemma add_events_process s : process (add_events l s) = process s.
Proof. revert s. induction l as [|e l' IH]; intros s; simpl; [easy|]. now rewrite IH. Qed.

Lemma add_events_spawns s : spawns (add_events l s) = spawns s.
Proof. revert s. induction l as [|e l' IH]; intros s; simpl; [easy|]. now rewrite IH. Qed.

Lemma add_events_oracle s : spawn_oracle (add_events l s) = spawn_oracle s.
Proof. revert s. induction l as [|e l' IH]; intros s; simpl; [easy|]. now rewrite IH. Qed.

Lemma add_events_run_key s : run_key (add_events l s) = run_key s.
Proof. revert s. induction l as [|e l' IH]; intros s; simpl; [easy|]. now rewrite IH. Qed.

Lemma add_events_trace s : trace (add_events l s) = trace s ++ l.
Proof.
  revert s. induction l as [|e l' IH]; intros s; simpl.
  - now rewrite app_nil_r.
  - rewrite IH. simpl. now rewrite <- app_assoc.
Qed.

End Frames.

(** ** [ArgumentManager.read_args] *)

Section ReadArgs.

Variable self : ArgumentManager.

(** No file: a warning is logged and there are no arguments. *)
Lemma read_args_absent s :
  fs_lookup (fs s) (file_path self) = None ->
  read_args self s = (Ret [], add_events [Log WARNING MsgArgsMissing] s).
Proof.
  intros H. unfold read_args, bind, Path_exists. now rewrite H.
Qed.

(** A file whose bytes are not UTF-8: [read_text] raises outside the [try]
    statement and nothing catches the exception. *)
Lemma read_args_undecodable s bytes :
  fs_lookup (fs s) (file_path self) = Some (File bytes) ->
  utf8_decode bytes = None ->
  read_args self s = (Raise UnicodeDecodeError, s).
Proof.
  intros H Hd. unfold read_args, bind, Path_exists, read_text.
  rewrite H. simpl. rewrite H. now rewrite Hd.
Qed.

(** A decodable file: blank text gives no arguments, a text [shlex] rejects
    is reported and gives no arguments, any other text gives its tokens. *)
Lemma read_args_text s bytes raw :
  fs_lookup (fs s) (file_path self) = Some (File bytes) ->
  utf8_decode bytes = Some raw ->
  let text := strip (translate_newlines raw) in
  read_args self s =
    if str_eqb text [] then (Ret [], s)
    else match shlex_split text with
         | Some (inr toks) => (Ret toks, s)
         | Some (inl m) =>
           (Ret [], add_events [Log ERROR (MsgParseError (ValueError m));
                                ShowError (MsgParseError (ValueError m))] s)
         | None => (Hang, s)
         end.
Proof.
  intros H Hd text. unfold read_args, bind, Path_exists, read_text.
  rewrite H. simpl. rewrite H, Hd. fold text.
  destruct (str_eqb text []); [reflexivity|].
  unfold try_except, shlex_split_call.
  destruct (shlex_split text) as [[m|toks]|]; reflexivity.
Qed.

(** Whatever happens, [read_args] only adds events to the state. *)
Lemma read_args_frame s :
  exists evs, snd (read_args self s) = add_events evs s.
Proof.
  destruct (fs_lookup (fs s) (file_path self)) as [[|bytes]|] eqn:H.
  - exists []. unfold read_args, bind, Path_exists, read_text.
    rewrite H. simpl. now rewrite H.
  - destruct (utf8_decode bytes) as [raw|] eqn:Hd.
    + rewrite (read_args_text s bytes raw H Hd).
      destruct (str_eqb _ []); [now exists []|].
      destruct (shlex_split _) as [[m|toks]|]; eauto; now exists [].
    + rewrite (read_args_undecodable s bytes H Hd). now exists [].
  - rewrite (read_args_absent s H). eauto.
Qed.

(** [read_args] never blocks. *)
Lemma read_args_terminates s : fst (read_args self s) <> Hang.
Proof.
  destruct (fs_lookup (fs s) (file_path self)) as [[|bytes]|] eqn:H.
  - unfold read_args, bind, Path_exists, read_text.
    rewrite H. simpl. now rewrite H.
  - destruct (utf8_decode bytes) as [raw|] eqn:Hd.
    + rewrite (read_args_text s bytes raw H Hd).
      destruct (str_eqb _ []); [easy|].
      destruct (split_fuel_enough (strip (translate_newlines raw))) as [r ->].
      now destruct r.
    + now rewrite (read_args_undecodable s bytes H Hd).
  - now rewrite (read_args_absent s H).
Qed.

End ReadArgs.

(** The end-to-end argument file reads as four tokens. *)
Lemma read_args_fps_room self s :
  fs_lookup (fs s) (file_path self) = Some (File Sample.fps_room) ->
  read_args self s = (Ret [py "-fps"; py "30"; py "-p"; py "My Room"], s).
Proof.
  intros H.
  assert (Hd : utf8_decode Sample.fps_room
               = Some (List.map Byte.to_N Sample.fps_room)) by reflexivity.
  rewrite (read_args_text self s _ _ H Hd). reflexivity.
Qed.

(** ** [Path.mkdir(parents=True)] *)

Lemma fs_lookup_insert_eq (f : gmap path node) (p : path) (n : node) :
  p <> [] -> fs_lookup (<[p := n]> f) p = Some n.
Proof.
  intros Hp. destruct p as [|c up]; [easy|]. simpl. apply lookup_insert_eq.
Qed.

Lemma fs_lookup_insert_ne (f : gmap path node) (p q : path) (n : node) :
  p <> q -> fs_lookup (<[p := n]> f) q = fs_lookup f q.
Proof.
  intros Hne. destruct q as [|c up]; [easy|]. simpl.
  now apply lookup_insert_ne.
Qed.

(** A directory that is there already: nothing to do. *)
Lemma mkdir_parents_present p s :
  is_dir (fs s) p = true -> mkdir_parents p true s = (Ret tt, s).
Proof.
  unfold is_dir. intros H.
  destruct p as [|c up]; simpl; unfold try_except, os_mkdir.
  - simpl. reflexivity.
  - destruct (fs_lookup (fs s) (c :: up)) as [[|b]|] eqn:E; try discriminate H.
    simpl. unfold is_dir. now rewrite E.
Qed.

Lemma is_dir_not_blocked (f : gmap path node) (p : path) :
  is_dir f p = true -> blocked f p = false.
Proof.
  unfold is_dir. destruct p as [|c up]; [easy|].
  cbn [blocked fs_lookup].
  destruct (@lookup path _ _ _ (c :: up) f) as [[|b]|]; easy.
Qed.

(** What [mkdir] with [parents=True] leaves behind: on return the directory
    is there, nothing that existed is gone, and only paths that are not longer
    than the argument were touched; when it raises nothing was made. With
    [exist_ok] set it raises exactly when a regular file is in the way. *)
Lemma mkdir_parents_spec p :
  forall ok s,
    match mkdir_parents p ok s with
    | (Ret _, s') =>
      blocked (fs s) p = false /\
      is_dir (fs s') p = true /\
      (forall q n, fs_lookup (fs s) q = Some n -> fs_lookup (fs s') q = Some n) /\
      (forall q, (length p < length q)%nat -> fs_lookup (fs s') q = fs_lookup (fs s) q) /\
      s' = set_fs (fs s') s
    | (Raise _, s') => s' = s /\ (ok = true -> blocked (fs s) p = true)
    | (Hang, _) => False
    end.
Proof.
  induction p as [|c up IH]; intros ok s.
  - simpl. unfold try_except, os_mkdir. simpl.
    destruct ok; simpl; [|easy].
    repeat split; auto. now destruct s.
  - cbn [mkdir_parents]. unfold try_except at 1. unfold os_mkdir at 1.
    destruct (fs_lookup (fs s) (c :: up)) as [n|] eqn:E.
    + cbn [is_FileNotFoundError].
      destruct (negb ok || negb (is_dir (fs s) (c :: up))) eqn:Eb.
      * split; [reflexivity|]. intros ->. simpl in Eb.
        unfold is_dir in Eb. rewrite E in Eb.
        simpl in E. cbn [blocked]. rewrite E. now destruct n.
      * apply orb_false_iff in Eb as [_ Eb]. apply negb_false_iff in Eb.
        repeat split; auto using is_dir_not_blocked. now destruct s.
    + assert (Hb : blocked (fs s) (c :: up) = blocked (fs s) up).
      { simpl in E. cbn [blocked]. now rewrite E. }
      destruct (is_dir (fs s) (parent (c :: up))) eqn:Ed.
      * cbn [fs set_fs]. repeat split.
        -- rewrite Hb. now apply is_dir_not_blocked.
        -- unfold is_dir. now rewrite fs_lookup_insert_eq.
        -- intros q n Hq. rewrite fs_lookup_insert_ne; [exact Hq|].
           intros <-. congruence.
        -- intros q Hlen. apply fs_lookup_insert_ne.
           intros <-. lia.
      * cbn [is_FileNotFoundError]. unfold bind.
        specialize (IH true s).
        destruct (mkdir_parents up true s) as [[[]|e|] s1]; [| |exact IH].
        2:{ destruct IH as [-> IH]. split; [reflexivity|].
            intros _. rewrite Hb. now apply IH. }
        destruct IH as (Hfree & Hdir & Hkeep & Hfar & Hs1).
        unfold mkdir_here, try_except. unfold os_mkdir.
        rewrite (Hfar (c :: up)) by (simpl; lia). rewrite E.
        cbn [parent tail]. rewrite Hdir. cbn [fs set_fs]. repeat split.
        -- now rewrite Hb.
        -- unfold is_dir. now rewrite fs_lookup_insert_eq.
        -- intros q n Hq. rewrite fs_lookup_insert_ne; [now apply Hkeep|].
           intros <-. congruence.
        -- intros q Hlen. rewrite fs_lookup_insert_ne by (intros <-; lia).
           apply Hfar. simpl in Hlen. lia.
        -- rewrite Hs1. reflexivity.
Qed.

(** ** [ArgumentManager.ensure_exists] *)

Section EnsureExists.

Variable self : ArgumentManager.

Let here := file_path self.
Let logged := [Log INFO (MsgEnsuringArgs (file_path self))].

(** File and directory are there: only the log line is added. *)
Lemma ensure_exists_settled s :
  is_Some (fs_lookup (fs s) here) ->
  is_dir (fs s) (parent here) = true ->
  ensure_exists self s = (Ret tt, add_events logged s).
Proof.
  intros [n H] Hd. unfold ensure_exists, bind, logging_info, emit.
  rewrite mkdir_parents_present by exact Hd.
  unfold Path_exists. cbn [fs add_event]. fold here. now rewrite H.
Qed.

(** The two ways a call ends. Either a regular file is in the way of the
    directory: the call raises and has made nothing. Or it returns: the
    directory is there, a file that existed is as it was, and a file that
    did not exist is there and empty. *)
Lemma ensure_exists_cases s :
  (blocked (fs s) (parent here) = true /\
   exists e, ensure_exists self s = (Raise e, add_events logged s)) \/
  (blocked (fs s) (parent here) = false /\
   fst (ensure_exists self s) = Ret tt /\
   is_dir (fs (snd (ensure_exists self s))) (parent here) = true /\
   fs_lookup (fs (snd (ensure_exists self s))) here
   = match fs_lookup (fs s) here with
     | Some n => Some n
     | None => Some (File [])
     end).
Proof.
  unfold ensure_exists, bind, logging_info, emit. fold here.
  set (s0 := add_event _ s).
  pose proof (mkdir_parents_spec (parent here) true s0) as Hm.
  destruct (mkdir_parents (parent here) true s0) as [[[]|e|] s1].
  - destruct Hm as (Hfree & Hdir & Hkeep & Hfar & Hs1). right.
    split; [exact Hfree|].
    unfold Path_exists.
    destruct (fs_lookup (fs s) here) as [n|] eqn:H.
    + rewrite (Hkeep here n H). cbn. repeat split; auto.
    + destruct here as [|c up] eqn:Ef; [discriminate H|].
      cbn [parent tail] in *.
      rewrite (Hfar (c :: up)) by (simpl; lia).
      change (fs s0) with (fs s). rewrite H. cbn [negb].
      unfold write_text. rewrite (Hfar (c :: up)) by (simpl; lia).
      change (fs s0) with (fs s). rewrite H. cbn [parent tail]. rewrite Hdir.
      cbn. repeat split.
      * unfold is_dir in *. rewrite fs_lookup_insert_ne; [exact Hdir|].
        intros Heq. apply (f_equal (@length _)) in Heq. simpl in Heq. lia.
      * apply lookup_insert_eq.
  - destruct Hm as [-> Hb]. left. split; [now apply Hb|]. now exists e.
  - destruct Hm.
Qed.

End EnsureExists.

(** ** [ServerManager] *)

Lemma running_spec (t : option Popen) :
  running t = true <-> exists p, t = Some p /\ exit_status p = None.
Proof.
  unfold running, poll. destruct t as [p|].
  - destruct (exit_status p) eqn:E; split; try easy.
    + intros [q [[= <-] Hq]]. congruence.
    + intros _. now exists p.
  - split; [easy | now intros [p [H _]]].
Qed.

Ltac step_program :=
  unfold start, stop, bind, get_process, assign_process, logging_info,
    logging_warning, logging_error, logging_exception, show_error,
    show_warning, emit, try_finally, try_except, Popen_terminate, Popen_kill,
    Popen_wait, Popen_new, on_process, signal, Path_exists, ret, raise, hang;
  cbn -[read_args].

Section Server.

Variable self : ServerManager.

(** The guard of [start]: a live child means a warning and nothing else. *)
Lemma start_running s p :
  process s = Some p -> exit_status p = None ->
  start self s
  = (Ret tt, add_events [Log INFO (MsgAlreadyRunning (pid p));
                         ShowWarning (MsgAlreadyRunning (pid p))] s).
Proof.
  intros Hp Hlive. step_program. rewrite Hp. cbn. unfold poll.
  now rewrite Hlive.
Qed.

Lemma start_missing_exe s :
  running (process s) = false ->
  fs_lookup (fs s) (exe_path self) = None ->
  start self s
  = (Ret tt, add_events [Log ERROR (MsgExeNotFound (exe_path self));
                         ShowError (MsgExeNotFound (exe_path self))] s).
Proof.
  intros Hidle Hexe. step_program. now rewrite Hidle, Hexe.
Qed.

(** Past both guards [start] reads the arguments; if that raises, so does
    [start]. *)
Lemma start_read_raises s n e s1 :
  running (process s) = false ->
  fs_lookup (fs s) (exe_path self) = Some n ->
  read_args (arg_mgr self) s = (Raise e, s1) ->
  start self s = (Raise e, s1).
Proof.
  intros Hidle Hexe Hread. step_program. rewrite Hidle, Hexe.
  cbn -[read_args]. now rewrite Hread.
Qed.

(** Past both guards and with the arguments read, [start] spawns. *)
Lemma start_spawns s n toks s1 :
  running (process s) = false ->
  fs_lookup (fs s) (exe_path self) = Some n ->
  read_args (arg_mgr self) s = (Ret toks, s1) ->
  let cmd := Path_str (exe_path self) :: toks in
  let s2 := set_spawns (S (spawns s1))
              (add_events [Log INFO (MsgStarting cmd);
                           CallPopen cmd CREATE_NO_WINDOW] s1) in
  start self s =
    match spawn_oracle s1 (spawns s1) cmd with
    | SpawnRaises e =>
      (Ret tt, add_events [Log ERROR MsgFailedLaunch;
                           ShowError (MsgFailedLaunchWith e)] s2)
    | Spawned c =>
      (Ret tt, add_events [Log INFO (MsgStarted (pid c))]
                 (set_process (Some (popen_of cmd c)) s2))
    end.
Proof.
  intros Hidle Hexe Hread cmd s2. step_program.
  rewrite Hidle, Hexe. cbn -[read_args]. rewrite Hread. cbn. fold cmd.
  destruct (spawn_oracle s1 (spawns s1) cmd); reflexivity.
Qed.

(** The guard of [stop]. *)
Lemma stop_idle s :
  running (process s) = false ->
  stop self s = (Ret tt, add_events [Log INFO MsgNotRunning] s).
Proof.
  intros Hidle. step_program. now rewrite Hidle.
Qed.

(** The child exits within the grace period. *)
Lemma stop_graceful s p code :
  process s = Some p -> exit_status p = None ->
  on_terminate p = Dies code ->
  stop self s
  = (Ret tt,
     set_process None
       (add_events [Log INFO (MsgStopping (pid p));
                    CallTerminate (pid p);
                    CallWait (pid p) (Some grace_period);
                    Log INFO MsgStoppedCleanly] s)).
Proof.
  intros Hp Hlive Ht. step_program. rewrite Hp. cbn. unfold poll.
  rewrite Hlive. cbn. rewrite Hp. cbn. rewrite Hlive, Ht. reflexivity.
Qed.

(** The child is still there when the grace period is over: what happens
    next depends on how it takes the kill. *)
Lemma stop_escalates s p :
  process s = Some p -> exit_status p = None ->
  on_terminate p = Survives ->
  let upto_kill := [Log INFO (MsgStopping (pid p));
                    CallTerminate (pid p);
                    CallWait (pid p) (Some grace_period);
                    Log WARNING MsgKillingIt;
                    CallKill (pid p)] in
  stop self s =
    match on_kill p with
    | Dies _ =>
      (Ret tt, set_process None
                 (add_events (upto_kill ++ [CallWait (pid p) None]) s))
    | Survives =>
      (Hang, add_events (upto_kill ++ [CallWait (pid p) None]) s)
    | Denied e =>
      (Raise e, set_process None (add_events upto_kill s))
    end.
Proof.
  intros Hp Hlive Ht. step_program. rewrite Hp. cbn. unfold poll.
  rewrite Hlive. cbn. rewrite Hp. cbn. rewrite Hlive, Ht. cbn.
  rewrite Hp. cbn. rewrite Hlive. cbn. rewrite Hp. cbn. rewrite Hlive.
  destruct (on_kill p); cbn; try rewrite Hp; cbn; try rewrite Hlive;
    reflexivity.
Qed.

(** [terminate()] itself raises something other than a timeout. *)
Lemma stop_terminate_raises s p e :
  process s = Some p -> exit_status p = None ->
  on_terminate p = Denied e -> is_TimeoutExpired e = false ->
  stop self s
  = (Ret tt,
     set_process None
       (add_events [Log INFO (MsgStopping (pid p));
                    CallTerminate (pid p);
                    Log ERROR MsgErrorStopping;
                    ShowError (MsgErrorStoppingWith e)] s)).
Proof.
  intros Hp Hlive Ht He. step_program. rewrite Hp. cbn. unfold poll.
  rewrite Hlive. cbn. rewrite Hp. cbn. rewrite Hlive, Ht. cbn.
  rewrite He. reflexivity.
Qed.

(** Past its guard, [stop] clears the reference whenever it comes back. *)
Lemma stop_live_clears s p :
  process s = Some p -> exit_status p = None ->
  fst (stop self s) <> Hang -> process (snd (stop self s)) = None.
Proof.
  intros Hp Hlive.
  destruct s as [f o n k t tr]. cbn in Hp. subst t.
  destruct p as [i a st ot ok]. cbn in Hlive. subst st.
  destruct ot as [c| |e]; [| |destruct e];
    destruct ok as [c'| |e']; cbn; congruence.
Qed.

End Server.

(** ** [AutoStartManager] *)

Ltac step_registry :=
  unfold is_enabled, enable, disable, toggle, bind, try_except, with_OpenKey,
    QueryValueEx, SetValueEx, DeleteValue, py_in, logging_info,
    logging_exception, emit, ret, raise.

Section AutoStart.

Variable self : AutoStartManager.

(** [is_enabled] always returns, and only logs. *)
Lemma is_enabled_eq s :
  exists evs,
    is_enabled self s = (Ret (enabled_in self (run_key s)), add_events evs s).
Proof.
  step_registry. unfold enabled_in.
  destruct (run_key s) as [|r w vals]; [now exists []|].
  destruct r; [|eexists [_]; reflexivity].
  destruct (vals !! app_name self) as [d|]; [|now exists []].
  destruct d; cbn; first [now exists [] | eexists [_]; reflexivity].
Qed.

Lemma enable_writable s r vals :
  run_key s = KeyPresent r true vals ->
  enable self s
  = (Ret tt,
     add_events [Log INFO MsgAutostartEnabled]
       (set_run_key
          (KeyPresent r true (<[app_name self := RegStr (exe_cmd self)]> vals))
          s)).
Proof. intros H. step_registry. now rewrite H. Qed.

Lemma disable_writable s r vals :
  run_key s = KeyPresent r true vals ->
  exists evs,
    disable self s
    = (Ret tt,
       add_events evs
         (set_run_key (KeyPresent r true (delete (app_name self) vals)) s)).
Proof.
  intros H. step_registry. rewrite H.
  destruct (vals !! app_name self) as [d|] eqn:E; cbn.
  - now exists [Log INFO MsgAutostartDisabled].
  - exists [Log INFO MsgNoAutostartEntry]. cbn.
    rewrite delete_id by exact E. rewrite <- H. now destruct s.
Qed.

(** Without write access to the key, or without the key, [enable] and
    [disable] log the failure and change nothing else. *)
Lemma enable_refused s :
  match run_key s with KeyPresent _ true _ => False | _ => True end ->
  enable self s = (Ret tt, add_events [Log ERROR MsgFailedEnable] s).
Proof.
  intros H. step_registry.
  destruct (run_key s) as [|r [|] vals]; easy.
Qed.

Lemma toggle_eq s :
  exists evs,
    toggle self s
    = (if enabled_in self (run_key s) then disable self else enable self)
        (add_events evs s).
Proof.
  destruct (is_enabled_eq s) as [evs H]. exists evs.
  unfold toggle, bind. rewrite H. now destruct (enabled_in self (run_key s)).
Qed.

Lemma enabled_after_set w vals :
  enabled_in self
    (KeyPresent true w (<[app_name self := RegStr (exe_cmd self)]> vals))
  = true.
Proof.
  unfold enabled_in. rewrite lookup_insert_eq. apply str_contains_refl.
Qed.

Lemma enabled_after_delete w vals :
  enabled_in self (KeyPresent true w (delete (app_name self) vals)) = false.
Proof. unfold enabled_in. now rewrite lookup_delete_eq. Qed.

End AutoStart.

(** ** Spawning, as the oracle of the initial state decides it *)

Section Spawn.

Variable self : ServerManager.
Variables (s s1 : state) (n : node) (toks : list str).

Hypothesis idle : running (process s) = false.
Hypothesis exe_there : fs_lookup (fs s) (exe_path self) = Some n.
Hypothesis args_read : read_args (arg_mgr self) s = (Ret toks, s1).

Let cmd := Path_str (exe_path self) :: toks.

Lemma args_read_frame : exists evs, s1 = add_events evs s.
Proof.
  destruct (read_args_frame (arg_mgr self) s) as [evs H].
  rewrite args_read in H. now exists evs.
Qed.

Lemma start_spawn_fails e :
  spawn_oracle s (spawns s) cmd = SpawnRaises e ->
  start self s
  = (Ret tt,
     add_events [Log ERROR MsgFailedLaunch; ShowError (MsgFailedLaunchWith e)]
       (set_spawns (S (spawns s))
          (add_events [Log INFO (MsgStarting cmd);
                       CallPopen cmd CREATE_NO_WINDOW] s1))).
Proof.
  intros Ho. rewrite (start_spawns self s n toks s1 idle exe_there args_read).
  destruct args_read_frame as [evs ->].
  rewrite add_events_oracle, add_events_spawns. fold cmd. now rewrite Ho.
Qed.

Lemma start_spawn_succeeds c :
  spawn_oracle s (spawns s) cmd = Spawned c ->
  start self s
  = (Ret tt,
     add_events [Log INFO (MsgStarted (pid c))]
       (set_process (Some (popen_of cmd c))
          (set_spawns (S (spawns s))
             (add_events [Log INFO (MsgStarting cmd);
                          CallPopen cmd CREATE_NO_WINDOW] s1)))).
Proof.
  intros Ho. rewrite (start_spawns self s n toks s1 idle exe_there args_read).
  destruct args_read_frame as [evs ->].
  rewrite add_events_oracle, add_events_spawns. fold cmd. now rewrite Ho.
Qed.

End Spawn.

(** * The claims *)

(** ** C1: what [stop] leaves tracked *)

(** C1, as stated, fails: a tracked child that has exited on its own makes
    [stop] return at its guard, and the reference to it stays. *)
Lemma stop_keeps_exited_reference :
  let s := Sample.machine [] (Spawned Sample.polite) KeyMissing
             (Some Sample.crashed) in
  fst (stop Sample.server s) = Ret tt /\
  process (snd (stop Sample.server s)) = Some Sample.crashed.
Proof. split; reflexivity. Qed.

(** C1 (amended): whenever [stop] comes back, by returning or by raising, no
    live process is tracked. Past the liveness guard (the child exits in
    time, has to be killed, or a call on it raises) the reference is
    cleared; when nothing is tracked or the tracked child has already exited,
    [stop] returns without touching the reference. *)
Theorem stop_leaves_no_live_process (self : ServerManager) (s : state) :
  fst (stop self s) <> Hang ->
  (running (process s) = true -> process (snd (stop self s)) = None) /\
  (running (process s) = false ->
     fst (stop self s) = Ret tt /\
     process (snd (stop self s)) = process s) /\
  running (process (snd (stop self s))) = false.
Proof.
  intros Hback.
  destruct (running (process s)) eqn:Hrun.
  - apply running_spec in Hrun as (p & Hp & Hlive).
    pose proof (stop_live_clears self s p Hp Hlive Hback) as Hnone.
    rewrite Hnone. repeat split; easy.
  - rewrite (stop_idle self s Hrun). cbn [fst snd].
    rewrite add_events_process. repeat split; easy.
Qed.

Lemma stop_leaves_no_live_process_witness :
  let s := Sample.machine [] (Spawned Sample.polite) KeyMissing
             (Some Sample.stubborn) in
  fst (stop Sample.server s) <> Hang /\
  running (process s) = true /\
  process (snd (stop Sample.server s)) = None.
Proof.
  intros s.
  assert (Hback : fst (stop Sample.server s) <> Hang) by (vm_compute; discriminate).
  split; [exact Hback|]. split; [reflexivity|].
  apply (stop_leaves_no_live_process Sample.server s Hback). reflexivity.
Defined.

(** ** C2: process-control errors *)

(** C2, as stated, fails: when the spawn raises, [start] reports the error
    but leaves [process] as it found it, here the reference to a child that
    had exited. *)
Lemma start_failure_keeps_reference :
  let s := Sample.machine [] (SpawnRaises PermissionError) KeyMissing
             (Some Sample.crashed) in
  fst (start Sample.server s) = Ret tt /\
  In (ShowError (MsgFailedLaunchWith PermissionError))
     (trace (snd (start Sample.server s))) /\
  process (snd (start Sample.server s)) = Some Sample.crashed.
Proof.
  vm_compute. split; [reflexivity|]. split; [|reflexivity].
  do 3 right. left. reflexivity.
Qed.

(** C2 (amended): a spawn that raises inside [start] is logged and shown to
    the user, [start] returns, and the tracked state is what it was before
    the call: no live process, and the same reference or none. A
    [terminate()] that raises anything but a timeout inside [stop] is logged
    and shown as well, and the reference is cleared. *)
Theorem process_control_errors_reported (self : ServerManager) (s : state) :
  (forall n toks s1 e,
     running (process s) = false ->
     fs_lookup (fs s) (exe_path self) = Some n ->
     read_args (arg_mgr self) s = (Ret toks, s1) ->
     let cmd := Path_str (exe_path self) :: toks in
     spawn_oracle s (spawns s) cmd = SpawnRaises e ->
     fst (start self s) = Ret tt /\
     trace (snd (start self s))
     = trace s1 ++ [Log INFO (MsgStarting cmd); CallPopen cmd true;
                    Log ERROR MsgFailedLaunch;
                    ShowError (MsgFailedLaunchWith e)] /\
     process (snd (start self s)) = process s /\
     running (process (snd (start self s))) = false)
  /\
  (forall p e,
     process s = Some p -> exit_status p = None ->
     on_terminate p = Denied e -> is_TimeoutExpired e = false ->
     fst (stop self s) = Ret tt /\
     trace (snd (stop self s))
     = trace s ++ [Log INFO (MsgStopping (pid p)); CallTerminate (pid p);
                   Log ERROR MsgErrorStopping;
                   ShowError (MsgErrorStoppingWith e)] /\
     process (snd (stop self s)) = None).
Proof.
  split.
  - intros n toks s1 e Hidle Hexe Hread cmd Ho.
    rewrite (start_spawn_fails self s s1 n toks Hidle Hexe Hread e Ho).
    cbn. fold cmd.
    destruct (args_read_frame self s s1 toks Hread) as [evs ->].
    rewrite add_events_process, Hidle, <- !app_assoc.
    repeat split; reflexivity.
  - intros p e Hp Hlive Ht He.
    rewrite (stop_terminate_raises self s p e Hp Hlive Ht He).
    cbn [fst snd trace set_process]. rewrite add_events_trace.
    repeat split; reflexivity.
Qed.

Lemma process_control_errors_reported_witness :
  let s := Sample.machine Sample.fps_room (SpawnRaises PermissionError)
             KeyMissing None in
  let t := Sample.machine [] (Spawned Sample.polite) KeyMissing
             (Some Sample.locked) in
  (fst (start Sample.server s) = Ret tt /\
   process (snd (start Sample.server s)) = None) /\
  (fst (stop Sample.server t) = Ret tt /\
   process (snd (stop Sample.server t)) = None).
Proof.
  intros s t. split.
  - destruct (proj1 (process_control_errors_reported Sample.server s)
                (File []) [py "-fps"; py "30"; py "-p"; py "My Room"] s
                PermissionError)
      as (Hret & _ & Hproc & _); try reflexivity.
    split; [exact Hret | exact Hproc].
  - destruct (proj2 (process_control_errors_reported Sample.server t)
                Sample.locked PermissionError)
      as (Hret & _ & Hproc); try reflexivity.
    split; [exact Hret | exact Hproc].
Defined.

(** ** C3: grace period, then kill *)

(** C3: on a live tracked child [stop] calls [terminate()] and then
    [wait(timeout=3)]. A child that exits in time ends the call there. For a
    child that is still running when the three units are over, [kill()]
    comes next and [wait()] without a timeout right after it returns. The
    reference is cleared on the graceful path and on the forceful one. *)
Theorem stop_grace_then_kill (self : ServerManager) (s : state) (p : Popen) :
  process s = Some p -> exit_status p = None ->
  let r := fst (stop self s) in
  let s' := snd (stop self s) in
  let asked := [Log INFO (MsgStopping (pid p)); CallTerminate (pid p);
                CallWait (pid p) (Some 3)] in
  (forall code, on_terminate p = Dies code ->
     r = Ret tt /\ process s' = None /\
     trace s' = trace s ++ asked ++ [Log INFO MsgStoppedCleanly])
  /\
  (on_terminate p = Survives ->
     match on_kill p with
     | Dies _ =>
       r = Ret tt /\ process s' = None /\
       trace s' = trace s ++ asked ++ [Log WARNING MsgKillingIt;
                                       CallKill (pid p);
                                       CallWait (pid p) None]
     | Survives =>
       r = Hang /\
       trace s' = trace s ++ asked ++ [Log WARNING MsgKillingIt;
                                       CallKill (pid p);
                                       CallWait (pid p) None]
     | Denied e =>
       r = Raise e /\ process s' = None /\
       trace s' = trace s ++ asked ++ [Log WARNING MsgKillingIt;
                                       CallKill (pid p)]
     end).
Proof.
  intros Hp Hlive r s' asked. split.
  - intros code Ht. subst r s'.
    rewrite (stop_graceful self s p code Hp Hlive Ht). cbn [fst snd].
    repeat split. cbn [trace set_process]. now rewrite add_events_trace.
  - intros Ht. subst r s'.
    rewrite (stop_escalates self s p Hp Hlive Ht).
    destruct (on_kill p); cbn [fst snd]; repeat split;
      cbn [trace set_process]; now rewrite add_events_trace.
Qed.

Lemma stop_grace_then_kill_witness :
  let s := Sample.machine [] (Spawned Sample.polite) KeyMissing
             (Some Sample.stubborn) in
  fst (stop Sample.server s) = Ret tt /\
  process (snd (stop Sample.server s)) = None /\
  trace (snd (stop Sample.server s))
  = [Log INFO (MsgStopping 4243); CallTerminate 4243; CallWait 4243 (Some 3);
     Log WARNING MsgKillingIt; CallKill 4243; CallWait 4243 None].
Proof.
  intros s.
  exact (proj2 (stop_grace_then_kill Sample.server s Sample.stubborn
                  eq_refl eq_refl) eq_refl).
Defined.

(** ** C4: what [read_args] returns *)

(** The parts of C4 the code keeps: text that is blank after decoding gives
    no arguments and no report. *)
Lemma read_args_blank (self : ArgumentManager) s bytes raw :
  fs_lookup (fs s) (file_path self) = Some (File bytes) ->
  utf8_decode bytes = Some raw ->
  forallb isspace (translate_newlines raw) = true ->
  read_args self s = (Ret [], s).
Proof.
  intros H Hd Hblank. rewrite (read_args_text self s bytes raw H Hd).
  now rewrite (strip_blank _ Hblank).
Qed.

(** C4: [read_args] does let an exception through. The [try] statement
    covers [shlex.split] only, so the [UnicodeDecodeError] that [read_text]
    raises on an argument file that is not UTF-8 (itself a [ValueError])
    leaves [read_args], and [start] with it, before anything is spawned. *)
Theorem read_args_propagates_decode_error :
  let s := Sample.machine Sample.ansi_cafe (Spawned Sample.polite)
             KeyMissing None in
  read_args Sample.arg_store s = (Raise UnicodeDecodeError, s) /\
  start Sample.server s = (Raise UnicodeDecodeError, s).
Proof. split; reflexivity. Qed.

(** ** C5: [is_enabled] *)

(** C5, as stated, fails on a multi-string value: there [in] is membership
    in the list of strings, so a value made of the command alone counts as
    enabled, and a string that contains the command and more does not. *)
Lemma is_enabled_on_multi_string :
  let cmd := exe_cmd Sample.autostart in
  let s d := Sample.machine [] (Spawned Sample.polite)
               (Sample.run_key_with d) None in
  fst (is_enabled Sample.autostart (s (RegMulti [cmd]))) = Ret true /\
  fst (is_enabled Sample.autostart (s (RegMulti [cmd ++ py " --hidden"])))
  = Ret false /\
  str_contains cmd (cmd ++ py " --hidden") = true.
Proof. vm_compute. repeat split. Qed.

(** C5 (amended): [is_enabled] always returns. It returns [True] exactly
    when the [Run] key can be read, holds a value under the application's
    name, and that value is a string with the launch command as a substring
    or a multi-string with the launch command as one of its strings. No
    value, no key, an unreadable key and a value of another type all give
    [False], and the registry is never changed. *)
Theorem is_enabled_iff (self : AutoStartManager) (s : state) :
  (exists b, fst (is_enabled self s) = Ret b) /\
  (fst (is_enabled self s) = Ret true <->
   exists w vals d,
     run_key s = KeyPresent true w vals /\
     vals !! app_name self = Some d /\
     ((exists v pre post, d = RegStr v /\ v = pre ++ exe_cmd self ++ post) \/
      (exists l, d = RegMulti l /\ In (exe_cmd self) l))) /\
  run_key (snd (is_enabled self s)) = run_key s.
Proof.
  destruct (is_enabled_eq self s) as [evs ->]. cbn [fst snd].
  split; [eauto|]. split; [|apply add_events_run_key].
  unfold enabled_in. split.
  - intros [= H].
    destruct (run_key s) as [|[|] w vals]; try discriminate H.
    destruct (vals !! app_name self) as [d|] eqn:E; [|discriminate H].
    exists w, vals, d. repeat split; [exact E|].
    destruct d as [v|l| | |]; try discriminate H; cbn in H.
    + left. apply str_contains_spec in H as (pre & post & ->). eauto.
    + right. apply existsb_str_eqb in H. eauto.
  - intros (w & vals & d & -> & -> & [(v & pre & post & -> & ->) | (l & -> & Hin)]);
      cbn; f_equal.
    + apply str_contains_spec. eauto.
    + now apply existsb_str_eqb.
Qed.

(** ** C6: the command vector *)

(** C6: past the two guards of [start], with the argument file read, exactly
    one process is spawned, without a console window, and its command vector
    is the executable path followed by the tokens just read. An argument file
    that holds -fps 30 -p and My Room in double quotes gives the four tokens
    -fps, 30, -p and My Room. *)
Theorem start_command_vector (self : ServerManager) (s s1 : state)
    (n : node) (toks : list str) :
  running (process s) = false ->
  fs_lookup (fs s) (exe_path self) = Some n ->
  read_args (arg_mgr self) s = (Ret toks, s1) ->
  let cmd := Path_str (exe_path self) :: toks in
  (exists rest,
     trace (snd (start self s))
     = trace s1 ++ [Log INFO (MsgStarting cmd); CallPopen cmd true] ++ rest /\
     forall c f, ~ In (CallPopen c f) rest) /\
  (fs_lookup (fs s) (file_path (arg_mgr self)) = Some (File Sample.fps_room) ->
   cmd = [Path_str (exe_path self); py "-fps"; py "30"; py "-p"; py "My Room"]).
Proof.
  intros Hidle Hexe Hread cmd. split.
  - rewrite (start_spawns self s n toks s1 Hidle Hexe Hread). fold cmd.
    destruct (spawn_oracle s1 (spawns s1) cmd) as [e|c]; cbn [snd].
    + exists [Log ERROR MsgFailedLaunch; ShowError (MsgFailedLaunchWith e)].
      split.
      * cbn. now rewrite <- !app_assoc.
      * intros c f [H|[H|[]]]; discriminate H.
    + exists [Log INFO (MsgStarted (pid c))]. split.
      * cbn. now rewrite <- !app_assoc.
      * intros c' f [H|[]]; discriminate H.
  - intros Hfile. rewrite (read_args_fps_room _ s Hfile) in Hread.
    injection Hread as <- _. reflexivity.
Qed.

Lemma start_command_vector_witness :
  let s := Sample.machine Sample.fps_room (Spawned Sample.polite)
             KeyMissing None in
  exists rest,
    trace (snd (start Sample.server s))
    = [Log INFO (MsgStarting [py "C:\app\bin\uxplay.exe"; py "-fps"; py "30";
                              py "-p"; py "My Room"]);
       CallPopen [py "C:\app\bin\uxplay.exe"; py "-fps"; py "30"; py "-p";
                  py "My Room"] true] ++ rest.
Proof.
  intros s.
  destruct (proj1 (start_command_vector Sample.server s s (File [])
                     [py "-fps"; py "30"; py "-p"; py "My Room"]
                     eq_refl eq_refl eq_refl))
    as [rest [H _]].
  exists rest. exact H.
Defined.

(** ** C7: starting twice *)

(** C7: with a live child tracked, liveness being read from the child at the
    time of the call, [start] logs, warns and returns: everything but the
    trace is as before. So a second [start] right after a first one that
    spawned a child, the child still running, warns and keeps that one
    child: one spawn in all. A stored reference alone does not stop
    [start]: when the tracked child has exited, a new one is spawned and
    tracked in its place. *)
Theorem start_twice (self : ServerManager) (s : state) :
  (forall p,
     process s = Some p -> exit_status p = None ->
     start self s
     = (Ret tt, add_events [Log INFO (MsgAlreadyRunning (pid p));
                            ShowWarning (MsgAlreadyRunning (pid p))] s))
  /\
  (forall n toks s1 c,
     running (process s) = false ->
     fs_lookup (fs s) (exe_path self) = Some n ->
     read_args (arg_mgr self) s = (Ret toks, s1) ->
     let cmd := Path_str (exe_path self) :: toks in
     spawn_oracle s (spawns s) cmd = Spawned c ->
     exit_status c = None ->
     let s' := snd (start self s) in
     let s'' := snd (start self s') in
     process s' = Some (popen_of cmd c) /\
     fst (start self s') = Ret tt /\
     process s'' = process s' /\
     spawns s'' = S (spawns s) /\
     fs s'' = fs s' /\
     trace s'' = trace s' ++ [Log INFO (MsgAlreadyRunning (pid c));
                              ShowWarning (MsgAlreadyRunning (pid c))])
  /\
  (forall p code n toks s1 c,
     process s = Some p -> exit_status p = Some code ->
     fs_lookup (fs s) (exe_path self) = Some n ->
     read_args (arg_mgr self) s = (Ret toks, s1) ->
     let cmd := Path_str (exe_path self) :: toks in
     spawn_oracle s (spawns s) cmd = Spawned c ->
     process (snd (start self s)) = Some (popen_of cmd c)).
Proof.
  split; [|split].
  3:{ intros p code n toks s1 c Hp Hcode Hexe Hread cmd Ho.
      assert (Hidle : running (process s) = false).
      { rewrite Hp. unfold running, poll. now rewrite Hcode. }
      now rewrite (start_spawn_succeeds self s s1 n toks Hidle Hexe Hread c Ho). }
  - intros p Hp Hlive. exact (start_running self s p Hp Hlive).
  - intros n toks s1 c Hidle Hexe Hread cmd Ho Hlive s' s''.
    assert (Hs' : process s' = Some (popen_of cmd c)).
    { subst s'.
      now rewrite (start_spawn_succeeds self s s1 n toks Hidle Hexe Hread c Ho). }
    assert (Hn : spawns s' = S (spawns s)).
    { subst s'.
      now rewrite (start_spawn_succeeds self s s1 n toks Hidle Hexe Hread c Ho). }
    subst s''.
    rewrite (start_running self s' (popen_of cmd c) Hs' Hlive). cbn [fst snd].
    rewrite add_events_process, add_events_spawns, add_events_fs,
      add_events_trace.
    repeat split; auto.
Qed.

Lemma start_twice_witness :
  let s := Sample.machine Sample.fps_room (Spawned Sample.polite)
             KeyMissing None in
  let s' := snd (start Sample.server s) in
  let s'' := snd (start Sample.server s') in
  process s'' = process s' /\ spawns s'' = 1%nat /\
  trace s'' = trace s' ++ [Log INFO (MsgAlreadyRunning 4242);
                           ShowWarning (MsgAlreadyRunning 4242)].
Proof.
  intros s s' s''.
  destruct (proj1 (proj2 (start_twice Sample.server s)) (File [])
              [py "-fps"; py "30"; py "-p"; py "My Room"] s Sample.polite
              eq_refl eq_refl eq_refl eq_refl eq_refl)
    as (_ & _ & Hp & Hn & _ & Ht).
  repeat split; assumption.
Defined.

(** ** C8: [toggle] *)

(** C8, as stated, fails where the [Run] key cannot be written, for one when
    it does not exist: [enable] only logs its failure, and [disable] followed
    by [toggle] ends disabled. *)
Lemma toggle_without_run_key :
  let s := Sample.machine [] (Spawned Sample.polite) KeyMissing None in
  let after := snd ((disable Sample.autostart ;; toggle Sample.autostart)%py s) in
  fst (is_enabled Sample.autostart after) = Ret false /\
  trace after = [Log INFO MsgNoAutostartEntry; Log ERROR MsgFailedEnable].
Proof. split; reflexivity. Qed.

(** C8 (amended): on every registry state in which the [Run] key can be
    read and written, [enable] followed by [toggle] ends disabled, with no
    value left under the application's name, and [disable] followed by
    [toggle] ends enabled, with the launch command stored under it. *)
Theorem toggle_inverts (self : AutoStartManager) (s : state)
    (vals : gmap str reg_data) :
  run_key s = KeyPresent true true vals ->
  let off := snd ((enable self ;; toggle self)%py s) in
  let on := snd ((disable self ;; toggle self)%py s) in
  (fst (is_enabled self off) = Ret false /\
   run_key off = KeyPresent true true (delete (app_name self) vals)) /\
  (fst (is_enabled self on) = Ret true /\
   run_key on
   = KeyPresent true true (<[app_name self := RegStr (exe_cmd self)]> vals)).
Proof.
  intros Hkey off on. split.
  - subst off. unfold bind.
    rewrite (enable_writable self s true vals Hkey).
    set (s1 := add_events _ _).
    assert (H1 : run_key s1
                 = KeyPresent true true
                     (<[app_name self := RegStr (exe_cmd self)]> vals)).
    { subst s1. now rewrite add_events_run_key. }
    destruct (toggle_eq self s1) as [evs ->].
    rewrite H1, enabled_after_set.
    set (s2 := add_events evs s1).
    assert (H2 : run_key s2
                 = KeyPresent true true
                     (<[app_name self := RegStr (exe_cmd self)]> vals)).
    { subst s2. now rewrite add_events_run_key. }
    destruct (disable_writable self s2 true _ H2) as [evs' ->]. cbn [snd].
    set (s3 := add_events evs' _).
    assert (H3 : run_key s3 = KeyPresent true true (delete (app_name self) vals)).
    { subst s3. rewrite add_events_run_key. cbn.
      now rewrite delete_insert_eq. }
    destruct (is_enabled_eq self s3) as [evs'' ->]. cbn [fst].
    rewrite H3, enabled_after_delete. split; reflexivity.
  - subst on. unfold bind.
    destruct (disable_writable self s true vals Hkey) as [evs ->].
    set (s1 := add_events evs _).
    assert (H1 : run_key s1 = KeyPresent true true (delete (app_name self) vals)).
    { subst s1. now rewrite add_events_run_key. }
    destruct (toggle_eq self s1) as [evs' ->].
    rewrite H1, enabled_after_delete.
    set (s2 := add_events evs' s1).
    assert (H2 : run_key s2 = KeyPresent true true (delete (app_name self) vals)).
    { subst s2. now rewrite add_events_run_key. }
    rewrite (enable_writable self s2 true _ H2). cbn [snd].
    set (s3 := add_events _ _).
    assert (H3 : run_key s3
                 = KeyPresent true true
                     (<[app_name self := RegStr (exe_cmd self)]> vals)).
    { subst s3. rewrite add_events_run_key. cbn.
      now rewrite insert_delete_eq. }
    destruct (is_enabled_eq self s3) as [evs'' ->]. cbn [fst].
    rewrite H3, enabled_after_set. split; reflexivity.
Qed.

Lemma toggle_inverts_witness :
  let s := Sample.machine [] (Spawned Sample.polite)
             (Sample.run_key_with (RegStr (py "notepad.exe"))) None in
  fst (is_enabled Sample.autostart
         (snd ((enable Sample.autostart ;; toggle Sample.autostart)%py s)))
  = Ret false /\
  fst (is_enabled Sample.autostart
         (snd ((disable Sample.autostart ;; toggle Sample.autostart)%py s)))
  = Ret true.
Proof.
  intros s.
  destruct (toggle_inverts Sample.autostart s
              {[ app_name Sample.autostart := RegStr (py "notepad.exe") ]}
              eq_refl)
    as [[Hoff _] [Hon _]].
  split; assumption.
Defined.

(** ** C9: [ensure_exists] *)

(** C9: a file that is there keeps its content, and nothing at all is made
    when its directory is there too. A file that is not there is created
    empty, together with the missing directories above it, as long as no
    regular file stands in their way. A second call never changes the file
    system the first one left. *)
Theorem ensure_exists_idempotent (self : ArgumentManager) (s : state) :
  let s1 := snd (ensure_exists self s) in
  let s2 := snd (ensure_exists self s1) in
  (forall n,
     fs_lookup (fs s) (file_path self) = Some n ->
     fs_lookup (fs s1) (file_path self) = Some n /\
     (is_dir (fs s) (parent (file_path self)) = true -> fs s1 = fs s)) /\
  (fs_lookup (fs s) (file_path self) = None ->
   blocked (fs s) (parent (file_path self)) = false ->
   fst (ensure_exists self s) = Ret tt /\
   fs_lookup (fs s1) (file_path self) = Some (File []) /\
   is_dir (fs s1) (parent (file_path self)) = true) /\
  fs s2 = fs s1.
Proof.
  intros s1 s2. repeat split.
  - destruct (ensure_exists_cases self s)
      as [(_ & e & He) | (_ & _ & _ & Hfile)]; subst s1.
    + rewrite He. cbn [snd]. now rewrite add_events_fs.
    + now rewrite Hfile, H.
  - intros Hd. subst s1.
    rewrite (ensure_exists_settled self s) by eauto.
    cbn [snd]. apply add_events_fs.
  - destruct (ensure_exists_cases self s)
      as [(Hb & _) | (_ & Hret & _)]; [congruence | exact Hret].
  - destruct (ensure_exists_cases self s)
      as [(Hb & _) | (_ & _ & _ & Hfile)]; [congruence|].
    subst s1. now rewrite Hfile, H.
  - destruct (ensure_exists_cases self s)
      as [(Hb & _) | (_ & _ & Hd & _)]; [congruence | exact Hd].
  - destruct (ensure_exists_cases self s)
      as [(Hb & e & He) | (_ & _ & Hd & Hfile)].
    + assert (Hfs : fs s1 = fs s).
      { subst s1. rewrite He. cbn [snd]. apply add_events_fs. }
      destruct (ensure_exists_cases self s1)
        as [(_ & e' & He') | (Hfree & _)].
      * subst s2. rewrite He'. cbn [snd]. apply add_events_fs.
      * rewrite Hfs in Hfree. congruence.
    + subst s2. rewrite (ensure_exists_settled self s1).
      * cbn [snd]. apply add_events_fs.
      * subst s1. rewrite Hfile. destruct (fs_lookup (fs s) (file_path self)); eauto.
      * exact Hd.
Qed.

Lemma ensure_exists_idempotent_witness :
  let s := set_fs Sample.bare_disk
             (Sample.machine [] (Spawned Sample.polite) KeyMissing None) in
  let s1 := snd (ensure_exists Sample.arg_store s) in
  fs_lookup (fs s) Sample.arguments_file = None /\
  fs_lookup (fs s1) Sample.arguments_file = Some (File []) /\
  is_dir (fs s1) Sample.appdata_dir = true /\
  fs (snd (ensure_exists Sample.arg_store s1)) = fs s1.
Proof.
  intros s s1.
  destruct (ensure_exists_idempotent Sample.arg_store s)
    as (_ & Hnew & Hsame).
  destruct (Hnew eq_refl eq_refl) as (_ & Hfile & Hdir).
  repeat split; assumption.
Defined.

(** ** C10: [read_args] and the file system *)

(** C10: [read_args] writes nothing but log lines and a popup, which go to
    the trace: the file system is as before whether the call returns or
    raises, and the argument file in particular exists or not as before, with
    the same content. When the file is absent the call returns no arguments
    and the file is still absent afterwards. *)
Theorem read_args_reads_only (self : ArgumentManager) (s : state) :
  let s' := snd (read_args self s) in
  fs s' = fs s /\
  fs_lookup (fs s') (file_path self) = fs_lookup (fs s) (file_path self) /\
  (fs_lookup (fs s) (file_path self) = None ->
   fst (read_args self s) = Ret [] /\
   fs_lookup (fs s') (file_path self) = None).
Proof.
  intros s'.
  assert (Hfs : fs s' = fs s).
  { subst s'. destruct (read_args_frame self s) as [evs ->].
    apply add_events_fs. }
  split; [exact Hfs|]. split; [now rewrite Hfs|].
  intros Habsent. split.
  - now rewrite (read_args_absent self s Habsent).
  - now rewrite Hfs.
Qed.

Lemma read_args_reads_only_witness :
  let s := set_fs Sample.bare_disk
             (Sample.machine [] (Spawned Sample.polite) KeyMissing None) in
  fs_lookup (fs s) Sample.arguments_file = None /\
  fst (read_args Sample.arg_store s) = Ret [] /\
  fs_lookup (fs (snd (read_args Sample.arg_store s))) Sample.arguments_file
  = None.
Proof.
  intros s. split; [reflexivity|].
  destruct (read_args_reads_only Sample.arg_store s) as (_ & _ & H).
  exact (H eq_refl).
Defined.

(** * Further properties *)

(** ** The registry under [enable], [disable] and [toggle] *)

Section AutoStartRegistry.

Variable self : AutoStartManager.

(** [enable] and [disable] always return; they change the key only when
    it can be written. *)
Lemma enable_run_key s :
  fst (enable self s) = Ret tt /\
  run_key (snd (enable self s))
  = match run_key s with
    | KeyPresent r true vals =>
      KeyPresent r true (<[app_name self := RegStr (exe_cmd self)]> vals)
    | k => k
    end.
Proof.
  destruct (run_key s) as [|r [|] vals] eqn:E.
  - rewrite enable_refused by now rewrite E.
    cbn [fst snd]. now rewrite add_events_run_key.
  - rewrite (enable_writable self s r vals E). cbn [fst snd].
    now rewrite add_events_run_key.
  - rewrite enable_refused by now rewrite E.
    cbn [fst snd]. now rewrite add_events_run_key.
Qed.

Lemma disable_run_key s :
  fst (disable self s) = Ret tt /\
  run_key (snd (disable self s))
  = match run_key s with
    | KeyPresent r true vals => KeyPresent r true (delete (app_name self) vals)
    | k => k
    end.
Proof.
  destruct (run_key s) as [|r [|] vals] eqn:E.
  - step_registry. now rewrite E.
  - destruct (disable_writable self s r vals E) as [evs ->]. cbn [fst snd].
    now rewrite add_events_run_key.
  - step_registry. now rewrite E.
Qed.

Lemma toggle_run_key s :
  fst (toggle self s) = Ret tt /\
  run_key (snd (toggle self s))
  = if enabled_in self (run_key s)
    then run_key (snd (disable self s))
    else run_key (snd (enable self s)).
Proof.
  destruct (toggle_eq self s) as [evs ->].
  pose proof (disable_run_key (add_events evs s)) as [Hd1 Hd2].
  pose proof (enable_run_key (add_events evs s)) as [He1 He2].
  rewrite add_events_run_key in Hd2, He2.
  destruct (enabled_in self (run_key s)).
  - split; [exact Hd1|]. rewrite Hd2. symmetry. apply disable_run_key.
  - split; [exact He1|]. rewrite He2. symmetry. apply enable_run_key.
Qed.

Lemma is_enabled_value s : fst (is_enabled self s) = Ret (enabled_in self (run_key s)).
Proof. now destruct (is_enabled_eq self s) as [evs ->]. Qed.

End AutoStartRegistry.

(** X1: where the [Run] key can be read and written, [toggle] turns the
    answer of [is_enabled] into its opposite, whatever was stored before,
    and a second [toggle] brings the first answer back. *)
Theorem toggle_flips (self : AutoStartManager) (s : state)
    (vals : gmap str reg_data) :
  run_key s = KeyPresent true true vals ->
  exists b,
    fst (is_enabled self s) = Ret b /\
    fst (is_enabled self (snd (toggle self s))) = Ret (negb b) /\
    fst (is_enabled self (snd (toggle self (snd (toggle self s))))) = Ret b.
Proof.
  intros Hkey. exists (enabled_in self (run_key s)).
  assert (Hflip : forall t vs,
            run_key t = KeyPresent true true vs ->
            exists vs',
              run_key (snd (toggle self t)) = KeyPresent true true vs' /\
              enabled_in self (run_key (snd (toggle self t)))
              = negb (enabled_in self (run_key t))).
  { intros t vs Ht. destruct (toggle_run_key self t) as [_ ->].
    destruct (enabled_in self (run_key t)) eqn:Eb.
    - destruct (disable_run_key self t) as [_ ->]. rewrite Ht.
      eexists. split; [reflexivity|]. apply enabled_after_delete.
    - destruct (enable_run_key self t) as [_ ->]. rewrite Ht.
      eexists. split; [reflexivity|]. apply enabled_after_set. }
  destruct (Hflip s vals Hkey) as (vs1 & Hk1 & Hb1).
  destruct (Hflip _ vs1 Hk1) as (vs2 & _ & Hb2).
  rewrite !is_enabled_value, Hb2, Hb1, negb_involutive. auto.
Qed.

Lemma toggle_flips_witness :
  let s := Sample.machine [] (Spawned Sample.polite)
             (Sample.run_key_with
                (RegStr (exe_cmd Sample.autostart ++ py " --minimized")))
             None in
  fst (is_enabled Sample.autostart s) = Ret true /\
  fst (is_enabled Sample.autostart (snd (toggle Sample.autostart s))) = Ret false.
Proof.
  intros s.
  destruct (toggle_flips Sample.autostart s _ eq_refl) as (b & Hb & Hflip & _).
  assert (Hnow : fst (is_enabled Sample.autostart s) = Ret true) by reflexivity.
  split; [exact Hnow|].
  rewrite Hb in Hnow. injection Hnow as ->. exact Hflip.
Defined.

(** X2: [enable], [disable] and [toggle] leave every other value of the
    [Run] key as it is, and never create, remove or re-protect the key:
    whatever they do is confined to the value under the application's
    name. *)
Theorem autostart_touches_own_entry_only (self : AutoStartManager) (s : state) :
  same_but (app_name self) (run_key s) (run_key (snd (enable self s))) /\
  same_but (app_name self) (run_key s) (run_key (snd (disable self s))) /\
  same_but (app_name self) (run_key s) (run_key (snd (toggle self s))).
Proof.
  assert (He : same_but (app_name self) (run_key s) (run_key (snd (enable self s)))).
  { destruct (enable_run_key self s) as [_ ->].
    destruct (run_key s) as [|r [|] vals]; cbn; repeat split; auto.
    intros other Hne. now apply lookup_insert_ne. }
  assert (Hd : same_but (app_name self) (run_key s) (run_key (snd (disable self s)))).
  { destruct (disable_run_key self s) as [_ ->].
    destruct (run_key s) as [|r [|] vals]; cbn; repeat split; auto.
    intros other Hne. now apply lookup_delete_ne. }
  repeat split; [exact He | exact Hd |].
  destruct (toggle_run_key self s) as [_ ->].
  now destruct (enabled_in self (run_key s)).
Qed.

(** X3: [enable] and [disable] are idempotent on the registry, in every
    state of the [Run] key, and each of them returns normally also the
    second time: deleting a value that is not there is no error. *)
Theorem enable_disable_idempotent (self : AutoStartManager) (s : state) :
  (fst (enable self (snd (enable self s))) = Ret tt /\
   run_key (snd (enable self (snd (enable self s))))
   = run_key (snd (enable self s))) /\
  (fst (disable self (snd (disable self s))) = Ret tt /\
   run_key (snd (disable self (snd (disable self s))))
   = run_key (snd (disable self s))).
Proof.
  split.
  - destruct (enable_run_key self (snd (enable self s))) as [-> ->].
    destruct (enable_run_key self s) as [_ ->].
    split; [reflexivity|].
    destruct (run_key s) as [|r [|] vals]; try reflexivity.
    now rewrite insert_insert_eq.
  - destruct (disable_run_key self (snd (disable self s))) as [-> ->].
    destruct (disable_run_key self s) as [_ ->].
    split; [reflexivity|].
    destruct (run_key s) as [|r [|] vals]; try reflexivity.
    f_equal. apply delete_id. apply lookup_delete_eq.
Qed.

(** ** What [start] and [stop] do to the rest of the state *)

Lemma read_args_reports (self : ArgumentManager) s :
  exists evs,
    snd (read_args self s) = add_events evs s /\ forallb is_report evs = true.
Proof.
  destruct (fs_lookup (fs s) (file_path self)) as [[|bytes]|] eqn:H.
  - exists []. unfold read_args, bind, Path_exists, read_text.
    rewrite H. simpl. now rewrite H.
  - destruct (utf8_decode bytes) as [raw|] eqn:Hd.
    + rewrite (read_args_text self s bytes raw H Hd).
      destruct (str_eqb _ []); [now exists []|].
      destruct (shlex_split _) as [[m|toks]|]; try (now exists []).
      eexists. split; [reflexivity|reflexivity].
    + rewrite (read_args_undecodable self s bytes H Hd). now exists [].
  - rewrite (read_args_absent self s H). eexists. split; reflexivity.
Qed.

(** Every way [stop] can go, for a live tracked child. *)
Lemma stop_live_outcome (self : ServerManager) s p :
  process s = Some p -> exit_status p = None ->
  fst (stop self s)
  = if grace_expires p then
      match on_kill p with
      | Dies _ => Ret tt
      | Survives => Hang
      | Denied e => Raise e
      end
    else Ret tt.
Proof.
  intros Hp Hlive.
  destruct s as [f o n k t tr]. cbn in Hp. subst t.
  destruct p as [i a st ot ok]. cbn in Hlive. subst st.
  unfold grace_expires. cbn [on_terminate on_kill].
  destruct ot as [c| |e]; [| |destruct e];
    destruct ok as [c'| |e']; reflexivity.
Qed.

(** X4: [stop] raises only when the grace period has run out and [kill()]
    itself raised, and then it raises that exception; it blocks only when
    the child outlives the kill; in every other state it returns. *)
Theorem stop_outcomes (self : ServerManager) (s : state) :
  (forall e,
     fst (stop self s) = Raise e <->
     exists p, process s = Some p /\ exit_status p = None /\
               grace_expires p = true /\ on_kill p = Denied e) /\
  (fst (stop self s) = Hang <->
   exists p, process s = Some p /\ exit_status p = None /\
             grace_expires p = true /\ on_kill p = Survives).
Proof.
  destruct (running (process s)) eqn:Hrun.
  - apply running_spec in Hrun as (p & Hp & Hlive).
    rewrite (stop_live_outcome self s p Hp Hlive).
    split; [intros e|]; split.
    + intros H. exists p. repeat split; auto;
        destruct (grace_expires p); try discriminate H; auto;
        destruct (on_kill p); try discriminate H; congruence.
    + intros (q & Hq & _ & Hg & Hk). assert (q = p) by congruence. subst q.
      now rewrite Hg, Hk.
    + intros H. exists p. repeat split; auto;
        destruct (grace_expires p); try discriminate H; auto;
        destruct (on_kill p); try discriminate H; congruence.
    + intros (q & Hq & _ & Hg & Hk). assert (q = p) by congruence. subst q.
      now rewrite Hg, Hk.
  - rewrite (stop_idle self s Hrun). cbn [fst].
    assert (Hno : forall q, process s = Some q -> exit_status q = None -> False).
    { intros q Hq Hl.
      assert (running (process s) = true) by (apply running_spec; eauto).
      congruence. }
    split; [intros e|]; split; try discriminate;
      intros (q & Hq & Hl & _); destruct (Hno q Hq Hl).
Qed.

(** X5: a second [stop] right after a first one that came back does
    nothing but log that the server is not running. *)
Theorem stop_twice (self : ServerManager) (s : state) :
  fst (stop self s) <> Hang ->
  stop self (snd (stop self s))
  = (Ret tt, add_events [Log INFO MsgNotRunning] (snd (stop self s))).
Proof.
  intros Hback. apply stop_idle.
  destruct (running (process s)) eqn:Hrun.
  - apply running_spec in Hrun as (p & Hp & Hlive).
    now rewrite (stop_live_clears self s p Hp Hlive Hback).
  - rewrite (stop_idle self s Hrun). cbn [snd].
    now rewrite add_events_process.
Qed.

Lemma stop_twice_witness :
  let s := Sample.machine [] (Spawned Sample.polite) KeyMissing
             (Some Sample.polite) in
  trace (snd (stop Sample.server (snd (stop Sample.server s))))
  = trace (snd (stop Sample.server s)) ++ [Log INFO MsgNotRunning].
Proof.
  intros s.
  assert (Hback : fst (stop Sample.server s) <> Hang) by (vm_compute; discriminate).
  rewrite (stop_twice Sample.server s Hback). reflexivity.
Defined.

(** X6: [stop] touches nothing but the tracked child: the file system, the
    registry and the count of spawns are as before, no process is spawned,
    and every [terminate()], [wait()] and [kill()] goes to the process that
    was tracked when the call began. *)
Theorem stop_frame (self : ServerManager) (s : state) :
  let s' := snd (stop self s) in
  fs s' = fs s /\ run_key s' = run_key s /\ spawns s' = spawns s /\
  exists evs,
    trace s' = trace s ++ evs /\
    forall e, In e evs ->
      is_report e = true \/
      exists p, process s = Some p /\
                (e = CallTerminate (pid p) \/ e = CallKill (pid p) \/
                 exists t, e = CallWait (pid p) t).
Proof.
  destruct (running (process s)) eqn:Hrun.
  - apply running_spec in Hrun as (p & Hp & Hlive).
    destruct s as [f o n k t tr]. cbn in Hp. subst t.
    destruct p as [i a st ot ok]. cbn in Hlive. subst st.
    destruct ot as [c| |e]; [| |destruct e];
      destruct ok as [c'| |e']; cbn;
      (repeat split; [try reflexivity..|]);
      rewrite <- ?app_assoc; eexists; (split; [reflexivity|]);
      intros ev Hin; cbn in Hin;
      repeat (destruct Hin as [<-|Hin]; [first [now left | right; eexists; split; [reflexivity|]; cbn; eauto]|]);
      destruct Hin.
  - intros s'. subst s'. rewrite (stop_idle self s Hrun). cbn [snd].
    rewrite add_events_fs, add_events_run_key, add_events_spawns,
      add_events_trace.
    repeat split. eexists. split; [reflexivity|].
    intros ev [<-|[]]. now left.
Qed.

(** The four ways through [start]. *)
Lemma start_cases (self : ServerManager) (s : state) :
  (exists evs,
     start self s = (Ret tt, add_events evs s) /\ forallb is_report evs = true) \/
  (exists e evs,
     read_args (arg_mgr self) s = (Raise e, add_events evs s) /\
     start self s = (Raise e, add_events evs s) /\
     forallb is_report evs = true) \/
  (exists toks evs r c,
     read_args (arg_mgr self) s = (Ret toks, add_events evs s) /\
     forallb is_report evs = true /\
     let cmd := Path_str (exe_path self) :: toks in
     start self s
     = (Ret tt,
        add_events r
          (c (set_spawns (S (spawns s))
                (add_events [Log INFO (MsgStarting cmd);
                             CallPopen cmd CREATE_NO_WINDOW]
                   (add_events evs s)))))
     /\ forallb is_report r = true
     /\ (c = id \/ exists child, c = set_process (Some child))).
Proof.
  destruct (running (process s)) eqn:Hrun.
  { apply running_spec in Hrun as (p & Hp & Hlive). left.
    rewrite (start_running self s p Hp Hlive). eexists. split; reflexivity. }
  destruct (fs_lookup (fs s) (exe_path self)) as [n|] eqn:Hexe.
  2:{ left. rewrite (start_missing_exe self s Hrun Hexe).
      eexists. split; reflexivity. }
  destruct (read_args_reports (arg_mgr self) s) as (evs & Hs1 & Hrep).
  pose proof (read_args_terminates (arg_mgr self) s) as Hterm.
  destruct (read_args (arg_mgr self) s) as [[toks|e|] s1] eqn:Hread;
    cbn [fst snd] in *; subst s1.
  - right. right.
    rewrite (start_spawns self s n toks _ Hrun Hexe Hread).
    rewrite add_events_oracle, add_events_spawns.
    destruct (spawn_oracle s (spawns s) _) as [e|child].
    + exists toks, evs, [Log ERROR MsgFailedLaunch; ShowError (MsgFailedLaunchWith e)], id.
      repeat split; auto.
    + exists toks, evs, [Log INFO (MsgStarted (pid child))],
        (set_process (Some (popen_of (Path_str (exe_path self) :: toks) child))).
      repeat split; eauto.
  - right. left. exists e, evs.
    rewrite (start_read_raises self s n e _ Hrun Hexe Hread). auto.
  - now destruct Hterm.
Qed.

(** X7: [start] never blocks and lets no failure of the spawn through: it
    returns, unless reading the argument file raised, and then it raises
    that exception without having spawned anything. *)
Theorem start_raises_only_from_read_args (self : ServerManager) (s : state) :
  fst (start self s) = Ret tt \/
  exists e,
    fst (start self s) = Raise e /\
    fst (read_args (arg_mgr self) s) = Raise e /\
    spawns (snd (start self s)) = spawns s /\
    process (snd (start self s)) = process s.
Proof.
  destruct (start_cases self s)
    as [(evs & -> & _) | [(e & evs & Hr & -> & _) | (toks & evs & r & c & _ & _ & H)]].
  - now left.
  - right. exists e. rewrite Hr. cbn [fst snd].
    now rewrite add_events_spawns, add_events_process.
  - left. cbn zeta in H. destruct H as [-> _]. reflexivity.
Qed.

(** X8: [start] leaves the file system and the registry alone, spawns at
    most once, and never signals or waits for a process: besides log lines
    and popups its only call is the one [Popen], without a console
    window. *)
Theorem start_frame (self : ServerManager) (s : state) :
  let s' := snd (start self s) in
  fs s' = fs s /\ run_key s' = run_key s /\
  (spawns s' = spawns s \/ spawns s' = S (spawns s)) /\
  exists evs,
    trace s' = trace s ++ evs /\
    forall e, In e evs ->
      is_report e = true \/ exists cmd, e = CallPopen cmd true.
Proof.
  assert (Hrep : forall evs e, forallb is_report evs = true -> In e evs ->
                               is_report e = true).
  { intros evs e H. rewrite forallb_forall in H. apply H. }
  destruct (start_cases self s)
    as [(evs & -> & He) | [(e & evs & _ & -> & He) | (toks & evs & r & c & _ & He & H)]];
    cbn [snd].
  - rewrite add_events_fs, add_events_run_key, add_events_spawns,
      add_events_trace.
    repeat split; auto. exists evs. split; [reflexivity|]. eauto.
  - rewrite add_events_fs, add_events_run_key, add_events_spawns,
      add_events_trace.
    repeat split; auto. exists evs. split; [reflexivity|]. eauto.
  - cbn zeta in H. destruct H as (-> & Hr & Hc). cbn [snd].
    rewrite add_events_fs, add_events_run_key, add_events_spawns,
      add_events_trace.
    assert (Hstate :
              forall t, fs (c t) = fs t /\ run_key (c t) = run_key t /\
                        spawns (c t) = spawns t /\ trace (c t) = trace t).
    { intros t. destruct Hc as [-> | [child ->]]; repeat split. }
    destruct (Hstate (set_spawns (S (spawns s))
                (add_events [Log INFO (MsgStarting (Path_str (exe_path self) :: toks));
                             CallPopen (Path_str (exe_path self) :: toks)
                               CREATE_NO_WINDOW]
                   (add_events evs s)))) as (-> & -> & -> & ->).
    cbn [fs run_key spawns trace set_spawns].
    rewrite !add_events_fs, !add_events_run_key, !add_events_trace.
    repeat split; auto.
    eexists. split; [now rewrite <- !app_assoc|].
    intros e Hin. rewrite !in_app_iff in Hin.
    destruct Hin as [Hin | [Hin | Hin]]; eauto.
    destruct Hin as [<- | [<- | []]]; [now left | right; now eexists].
Qed.

(** ** More on [ensure_exists] and [read_args] *)

Lemma mkdir_here_after_parent p ok s :
  fs_lookup (fs s) p = None -> is_dir (fs s) (parent p) = true ->
  mkdir_here p ok s = (Ret tt, set_fs (<[p := Dir]> (fs s)) s).
Proof.
  intros Hp Hd. unfold mkdir_here, try_except, os_mkdir. now rewrite Hp, Hd.
Qed.

(** With [exist_ok] set, the only exception of [mkdir] is the
    [FileExistsError] for the regular file in the way. *)
Lemma mkdir_parents_raises p :
  forall s e s', mkdir_parents p true s = (Raise e, s') -> e = FileExistsError.
Proof.
  induction p as [|c up IH]; intros s e s'.
  - cbn. unfold try_except, os_mkdir. cbn. discriminate.
  - cbn [mkdir_parents]. unfold try_except at 1. unfold os_mkdir at 1.
    destruct (fs_lookup (fs s) (c :: up)) as [n|] eqn:E.
    + cbn [is_FileNotFoundError].
      destruct (negb true || negb (is_dir (fs s) (c :: up))); congruence.
    + destruct (is_dir (fs s) (parent (c :: up))) eqn:Ed; [discriminate|].
      cbn [is_FileNotFoundError]. unfold bind.
      pose proof (mkdir_parents_spec up true s) as Hspec.
      destruct (mkdir_parents up true s) as [[[]|e0|] s1] eqn:Eup.
      * destruct Hspec as (_ & Hdir & _ & Hfar & _).
        rewrite mkdir_here_after_parent; [discriminate | | exact Hdir].
        rewrite (Hfar (c :: up)) by (simpl; lia). exact E.
      * intros [= <- <-]. now apply (IH s e0 s1).
      * discriminate.
Qed.

(** X9: [ensure_exists] fails exactly when a regular file stands where a
    directory above the argument file is needed. It then raises
    [FileExistsError], out of [mkdir], and has made nothing; in every other
    state it returns. *)
Theorem ensure_exists_fails_iff_blocked (self : ArgumentManager) (s : state) :
  (fst (ensure_exists self s) = Ret tt <->
   blocked (fs s) (parent (file_path self)) = false) /\
  (blocked (fs s) (parent (file_path self)) = true ->
   fst (ensure_exists self s) = Raise FileExistsError /\
   fs (snd (ensure_exists self s)) = fs s).
Proof.
  assert (Hraise : forall e s',
            ensure_exists self s = (Raise e, s') ->
            blocked (fs s) (parent (file_path self)) = true ->
            e = FileExistsError).
  { intros e s'. unfold ensure_exists, bind, logging_info, emit.
    set (s0 := add_event _ s).
    pose proof (mkdir_parents_spec (parent (file_path self)) true s0) as Hm.
    destruct (mkdir_parents (parent (file_path self)) true s0)
      as [[[]|e0|] s1] eqn:Em.
    - destruct Hm as (Hfree & _). change (fs s0) with (fs s) in Hfree.
      congruence.
    - intros [= <- <-] _. exact (mkdir_parents_raises _ _ _ _ Em).
    - discriminate. }
  destruct (ensure_exists_cases self s)
    as [(Hb & e & He) | (Hb & Hret & _)]; rewrite Hb.
  - pose proof (Hraise e _ He Hb) as ->. rewrite He. cbn [fst snd].
    rewrite add_events_fs. repeat split; congruence.
  - rewrite Hret. repeat split; congruence.
Qed.

Lemma ensure_exists_fails_iff_blocked_witness :
  let s := set_fs (<[Sample.appdata_dir := File []]> Sample.bare_disk)
             (Sample.machine [] (Spawned Sample.polite) KeyMissing None) in
  blocked (fs s) (parent (file_path Sample.arg_store)) = true /\
  fst (ensure_exists Sample.arg_store s) = Raise FileExistsError.
Proof.
  intros s.
  assert (Hb : blocked (fs s) (parent (file_path Sample.arg_store)) = true)
    by reflexivity.
  split; [exact Hb|].
  exact (proj1 (proj2 (ensure_exists_fails_iff_blocked Sample.arg_store s) Hb)).
Defined.

(** The state a call that creates the file leaves. *)
Lemma ensure_exists_creates (self : ArgumentManager) s :
  fs_lookup (fs s) (file_path self) = None ->
  blocked (fs s) (parent (file_path self)) = false ->
  exists f,
    ensure_exists self s
    = (Ret tt, add_events [Log INFO (MsgEnsuringArgs (file_path self));
                           Log INFO MsgCreatedArgs] (set_fs f s)) /\
    fs_lookup f (file_path self) = Some (File []).
Proof.
  intros Habsent Hfree. unfold ensure_exists, bind, logging_info, emit.
  set (s0 := add_event _ s).
  pose proof (mkdir_parents_spec (parent (file_path self)) true s0) as Hm.
  destruct (file_path self) as [|c up] eqn:Ef; [discriminate Habsent|].
  cbn [parent tail] in *.
  destruct (mkdir_parents up true s0) as [[[]|e|] s1].
  - destruct Hm as (_ & Hdir & _ & Hfar & Hs1).
    unfold Path_exists. rewrite (Hfar (c :: up)) by (simpl; lia).
    change (fs s0) with (fs s). rewrite Habsent. cbn [negb].
    unfold write_text. rewrite (Hfar (c :: up)) by (simpl; lia).
    change (fs s0) with (fs s). rewrite Habsent. cbn [parent tail].
    rewrite Hdir. exists (<[c :: up := File []]> (fs s1)).
    split; [|apply lookup_insert_eq].
    rewrite Hs1. reflexivity.
  - destruct Hm as [_ Hb]. change (fs s0) with (fs s) in Hb.
    rewrite Hb in Hfree by reflexivity. discriminate.
  - destruct Hm.
Qed.

(** X10: on a machine without an argument file, and nothing in the way of
    its directory, [ensure_exists] followed by [read_args] gives no
    arguments, and [read_args] has nothing to report: the only events are
    the two log lines of [ensure_exists]. *)
Theorem fresh_file_has_no_arguments (self : ArgumentManager) (s : state) :
  fs_lookup (fs s) (file_path self) = None ->
  blocked (fs s) (parent (file_path self)) = false ->
  let r := (ensure_exists self ;; read_args self)%py s in
  fst r = Ret [] /\
  trace (snd r) = trace s ++ [Log INFO (MsgEnsuringArgs (file_path self));
                              Log INFO MsgCreatedArgs].
Proof.
  intros Habsent Hfree r. subst r. unfold bind.
  destruct (ensure_exists_creates self s Habsent Hfree) as (f & -> & Hf).
  set (s1 := add_events _ _).
  assert (Hs1 : fs_lookup (fs s1) (file_path self) = Some (File [])).
  { subst s1. now rewrite add_events_fs. }
  rewrite (read_args_text self s1 [] [] Hs1 eq_refl).
  change (strip (translate_newlines [])) with (@nil char).
  cbn [str_eqb fst snd].
  split; [reflexivity|]. subst s1. now rewrite add_events_trace.
Qed.

Lemma fresh_file_has_no_arguments_witness :
  let s := set_fs Sample.bare_disk
             (Sample.machine [] (Spawned Sample.polite) KeyMissing None) in
  fst ((ensure_exists Sample.arg_store ;; read_args Sample.arg_store)%py s)
  = Ret [].
Proof.
  intros s.
  exact (proj1 (fresh_file_has_no_arguments Sample.arg_store s eq_refl eq_refl)).
Defined.

Lemma utf8_decode_ascii (bytes : list byte) :
  forallb (fun b => Byte.to_N b <? 0x80) bytes = true ->
  utf8_decode bytes = Some (List.map Byte.to_N bytes).
Proof.
  induction bytes as [|b bytes IH]; [reflexivity|].
  cbn [forallb]. intros H. apply andb_true_iff in H as [Hb H].
  cbn [utf8_decode List.map]. rewrite Hb, (IH H). reflexivity.
Qed.

(** X11: an argument file made of ASCII bytes never makes [read_args]
    raise or block: the call returns, with the tokens or, for text [shlex]
    rejects, with none. *)
Theorem read_args_returns_on_ascii (self : ArgumentManager) (s : state)
    (bytes : list byte) :
  fs_lookup (fs s) (file_path self) = Some (File bytes) ->
  forallb (fun b => Byte.to_N b <? 0x80) bytes = true ->
  exists toks, fst (read_args self s) = Ret toks.
Proof.
  intros Hfile Hascii.
  rewrite (read_args_text self s bytes _ Hfile (utf8_decode_ascii bytes Hascii)).
  destruct (str_eqb _ []); [now exists []|].
  destruct (split_fuel_enough
              (strip (translate_newlines (List.map Byte.to_N bytes))))
    as [[m|toks] ->]; eauto.
Qed.

Lemma read_args_returns_on_ascii_witness :
  let s := Sample.machine (list_byte_of_string "-p 'My Room") (Spawned Sample.polite)
             KeyMissing None in
  exists toks, fst (read_args Sample.arg_store s) = Ret toks.
Proof.
  intros s.
  exact (read_args_returns_on_ascii Sample.arg_store s
           (list_byte_of_string "-p 'My Room") eq_refl eq_refl).
Defined.

(** ** Text without quotes and escapes *)

Lemma str_eqb_nil_false (tok : str) : tok <> [] -> str_eqb tok [] = false.
Proof. now destruct tok. Qed.

Lemma tokens_at_eof fuel :
  (0 < fuel)%nat ->
  tokens fuel {| instream := []; state_of := StEof |} = Some (inr []).
Proof. destruct fuel; [lia | reflexivity]. Qed.

(** On such text the lexer and [words_from] agree, between words and
    inside a word. *)
Lemma plain_tokens input :
  forallb (fun c => negb (is_special c)) input = true ->
  (forall fuel,
     (length input < fuel)%nat ->
     tokens fuel {| instream := input; state_of := StSpace |}
     = Some (inr (words_from [] input))) /\
  (forall tok es,
     tok <> [] ->
     exists t lex',
       read_token_loop input StWord es false tok = inr (t, false, lex') /\
       t <> [] /\
       (length (instream lex') <= length input)%nat /\
       forall fuel,
         (length (instream lex') < fuel)%nat ->
         exists rest,
           tokens fuel lex' = Some (inr rest) /\
           t :: rest = words_from tok input).
Proof.
  induction input as [|c rest IH]; intros Hplain.
  - split.
    + intros [|fuel] Hlt; [simpl in Hlt; lia | reflexivity].
    + intros tok es Htok. cbn [read_token_loop].
      eexists _, _. split; [reflexivity|]. split; [exact Htok|].
      split; [reflexivity|]. intros fuel Hlt. exists [].
      split; [now apply tokens_at_eof|].
      cbn [words_from]. now rewrite str_eqb_nil_false.
  - cbn [forallb] in Hplain. apply andb_true_iff in Hplain as [Hc Hplain].
    destruct (IH Hplain) as [IHspace IHword]. clear IH.
    unfold is_special in Hc. apply negb_true_iff, orb_false_iff in Hc as [Hq He].
    split.
    + intros [|fuel] Hlt; [simpl in Hlt; lia|].
      cbn [tokens]. unfold read_token.
      cbn [instream state_of read_token_loop words_from].
      destruct (char_in c whitespace) eqn:Hws.
      * cbn [str_eqb negb orb].
        specialize (IHspace (S fuel)). cbn [tokens] in IHspace.
        unfold read_token in IHspace. cbn [instream state_of] in IHspace.
        apply IHspace. simpl in Hlt. lia.
      * rewrite He, Hq.
        destruct (IHword [c] StSpace) as (t & lex' & -> & Ht & Hlen & Hrest);
          [discriminate|].
        cbn [negb andb]. rewrite (str_eqb_nil_false t Ht).
        destruct (Hrest fuel) as (ws & -> & Hws'); [simpl in Hlt; lia|].
        now rewrite Hws'.
    + intros tok es Htok. cbn [read_token_loop words_from].
      destruct (char_in c whitespace) eqn:Hws.
      * rewrite (str_eqb_nil_false tok Htok). cbn [negb orb].
        eexists _, _. split; [reflexivity|]. split; [exact Htok|].
        cbn [instream length]. split; [lia|].
        intros fuel Hlt. exists (words_from [] rest).
        split; [now apply IHspace | reflexivity].
      * rewrite Hq, He.
        destruct (IHword (tok ++ [c]) es) as (t & lex' & -> & Ht & Hlen & Hrest).
        { now destruct tok. }
        eexists _, _. split; [reflexivity|]. split; [exact Ht|].
        cbn [length]. split; [lia|]. exact Hrest.
Qed.

Lemma plain_split (s : str) :
  forallb (fun c => negb (is_special c)) s = true ->
  shlex_split s = Some (inr (words s)).
Proof.
  intros Hplain. apply (proj1 (plain_tokens s Hplain)). lia.
Qed.

Lemma forallb_rev {A} (P : A -> bool) (l : list A) :
  forallb P (rev l) = forallb P l.
Proof.
  induction l as [|x l IH]; [reflexivity|].
  cbn [rev forallb]. rewrite forallb_app, IH. cbn. now rewrite andb_true_r, andb_comm.
Qed.

Lemma forallb_lstrip (P : char -> bool) (s : str) :
  forallb P s = true -> forallb P (lstrip s) = true.
Proof.
  induction s as [|c s IH]; [easy|]. cbn [lstrip].
  destruct (isspace c); [|easy].
  cbn [forallb]. intros H. apply andb_true_iff in H as [_ H]. auto.
Qed.

Lemma forallb_strip (P : char -> bool) (s : str) :
  forallb P s = true -> forallb P (strip s) = true.
Proof.
  intros H. unfold strip, rstrip.
  rewrite forallb_rev. apply forallb_lstrip.
  rewrite forallb_rev. now apply forallb_lstrip.
Qed.

Lemma forallb_translate_newlines (P : char -> bool) :
  P 0x0A = true ->
  forall s, forallb P s = true -> forallb P (translate_newlines s) = true.
Proof.
  intros Hlf s.
  enough (H : (forallb P s = true -> forallb P (translate_newlines s) = true) /\
              (forall c, forallb P (c :: s) = true ->
                         forallb P (translate_newlines (c :: s)) = true))
    by apply H.
  induction s as [|d s [IH1 IH2]].
  - split; [easy|]. intros c Hc. cbn [translate_newlines].
    destruct (c =? 0x0D); cbn [forallb] in *; [now rewrite Hlf | exact Hc].
  - split; [apply IH2|]. intros c Hc.
    cbn [forallb] in Hc. apply andb_true_iff in Hc as [Hc Hds].
    cbn [translate_newlines].
    destruct (c =? 0x0D).
    + destruct (d =? 0x0A); cbn [forallb]; rewrite Hlf; cbn [andb].
      * apply IH1. cbn [forallb] in Hds. now apply andb_true_iff in Hds as [_ ?].
      * now apply IH2.
    + cbn [forallb]. rewrite Hc. cbn [andb]. now apply IH2.
Qed.

(** X12: for an argument file whose text has no quote and no backslash,
    [read_args] returns the words between the blanks (space, tab, carriage
    return, line feed) of the stripped text, in order, and reports
    nothing. *)
Theorem read_args_splits_plain_text (self : ArgumentManager) (s : state)
    (bytes : list byte) (raw : str) :
  fs_lookup (fs s) (file_path self) = Some (File bytes) ->
  utf8_decode bytes = Some raw ->
  forallb (fun c => negb (is_special c)) raw = true ->
  read_args self s = (Ret (words (strip (translate_newlines raw))), s).
Proof.
  intros Hfile Hd Hplain.
  rewrite (read_args_text self s bytes raw Hfile Hd).
  assert (Htext : forallb (fun c => negb (is_special c))
                    (strip (translate_newlines raw)) = true).
  { apply forallb_strip. now apply forallb_translate_newlines. }
  destruct (str_eqb _ []) eqn:E.
  - apply str_eqb_nil in E. now rewrite E.
  - now rewrite (plain_split _ Htext).
Qed.

Lemma read_args_splits_plain_text_witness :
  let bytes := list_byte_of_string "  -fps 30   -nh " in
  let s := Sample.machine bytes (Spawned Sample.polite) KeyMissing None in
  read_args Sample.arg_store s = (Ret [py "-fps"; py "30"; py "-nh"], s).
Proof.
  intros bytes s.
  exact (read_args_splits_plain_text Sample.arg_store s bytes
           (List.map Byte.to_N bytes) eq_refl eq_refl eq_refl).
Defined.

(** ** The shape of the file system *)

Lemma parent_shorter (p : path) : fs_lookup ∅ p = None -> parent p <> p.
Proof.
  destruct p as [|c up]; [discriminate|]. cbn [parent tail]. intros _ H.
  apply (f_equal (@length _)) in H. simpl in H. lia.
Qed.

Lemma fs_wf_insert (f : gmap path node) (p : path) (n : node) :
  fs_wf f -> fs_lookup f p = None -> is_dir f (parent p) = true ->
  fs_wf (<[p := n]> f).
Proof.
  intros Hwf Hp Hd q m Hq.
  assert (Hpp : parent p <> p).
  { apply parent_shorter. now destruct p. }
  unfold is_dir in *.
  destruct (decide (q = p)) as [->|Hne].
  - rewrite fs_lookup_insert_ne by congruence. exact Hd.
  - rewrite lookup_insert_ne in Hq by congruence.
    specialize (Hwf q m Hq). unfold is_dir in Hwf.
    destruct (decide (parent q = p)) as [Heq|Hne'].
    + rewrite Heq, Hp in Hwf. discriminate.
    + rewrite fs_lookup_insert_ne by congruence. exact Hwf.
Qed.

Lemma os_mkdir_wf p s :
  fs_wf (fs s) -> fs_wf (fs (snd (os_mkdir p s))).
Proof.
  intros Hwf. unfold os_mkdir.
  destruct (fs_lookup (fs s) p) eqn:E; [exact Hwf|].
  destruct (is_dir (fs s) (parent p)) eqn:Ed; [|exact Hwf].
  cbn. now apply fs_wf_insert.
Qed.

Lemma mkdir_here_wf p ok s :
  fs_wf (fs s) -> fs_wf (fs (snd (mkdir_here p ok s))).
Proof.
  intros Hwf. unfold mkdir_here, try_except.
  pose proof (os_mkdir_wf p s Hwf) as H.
  destruct (os_mkdir p s) as [[[]|e|] s1]; cbn [snd] in *; try exact H.
  destruct (is_FileNotFoundError e); [exact H|].
  now destruct (negb ok || negb (is_dir (fs s1) p)).
Qed.

Lemma mkdir_parents_wf p :
  forall ok s, fs_wf (fs s) -> fs_wf (fs (snd (mkdir_parents p ok s))).
Proof.
  induction p as [|c up IH]; intros ok s Hwf.
  - cbn. unfold try_except, os_mkdir. cbn. now destruct ok.
  - cbn [mkdir_parents]. unfold try_except.
    pose proof (os_mkdir_wf (c :: up) s Hwf) as H.
    destruct (os_mkdir (c :: up) s) as [[[]|e|] s1]; cbn [snd] in *;
      try exact H.
    destruct (is_FileNotFoundError e).
    + unfold bind. specialize (IH true s1 H).
      destruct (mkdir_parents up true s1) as [[[]|e'|] s2]; cbn [snd] in *;
        try exact IH.
      now apply mkdir_here_wf.
    + now destruct (negb ok || negb (is_dir (fs s1) (c :: up))).
Qed.

(** X13: [ensure_exists] keeps the file system well formed: if every file
    and directory sat in a directory before the call, so it does after it,
    the new argument file and the directories made for it included. *)
Theorem ensure_exists_keeps_tree (self : ArgumentManager) (s : state) :
  fs_wf (fs s) -> fs_wf (fs (snd (ensure_exists self s))).
Proof.
  intros Hwf. unfold ensure_exists, bind, logging_info, emit.
  set (s0 := add_event _ s).
  assert (Hwf0 : fs_wf (fs s0)) by exact Hwf.
  pose proof (mkdir_parents_wf (parent (file_path self)) true s0 Hwf0) as H1.
  pose proof (mkdir_parents_spec (parent (file_path self)) true s0) as Hm.
  destruct (mkdir_parents (parent (file_path self)) true s0)
    as [[[]|e|] s1]; cbn [snd] in *; try exact H1.
  destruct Hm as (_ & Hdir & _).
  unfold Path_exists.
  destruct (fs_lookup (fs s1) (file_path self)) as [n|] eqn:E;
    cbn [negb]; [exact H1|].
  unfold write_text. rewrite E, Hdir. cbn.
  now apply fs_wf_insert.
Qed.

Lemma ensure_exists_keeps_tree_witness :
  let s := set_fs Sample.bare_disk
             (Sample.machine [] (Spawned Sample.polite) KeyMissing None) in
  fs_wf (fs s) /\ fs_wf (fs (snd (ensure_exists Sample.arg_store s))).
Proof.
  intros s.
  assert (Hwf : fs_wf (fs s)).
  { intros p n H. cbn in H. unfold Sample.bare_disk in H.
    apply lookup_insert_Some in H as [[<- _] | [_ H]]; [reflexivity|].
    rewrite lookup_empty in H. discriminate H. }
  split; [exact Hwf|].
  exact (ensure_exists_keeps_tree Sample.arg_store s Hwf).
Defined.

(** ** Where [Paths] finds the server *)

Section PathsFacts.

Variables (sys : sys_module) (script APPDATA_DIR : path) (s : state).

Let found := Paths_init sys script APPDATA_DIR s.

Let cand : path :=
  if frozen sys then
    match MEIPASS sys with
    | Some unpacked => unpacked
    | None => parent (executable sys)
    end
  else parent script.

Let resources : path :=
  if is_dir (fs s) (child cand (py "_internal"))
  then child cand (py "_internal") else cand.

(** [Paths.__init__] only reads: it returns and leaves the state alone. *)
Lemma Paths_init_value :
  found
  = (Ret {| resource_dir := resources;
            icon_file := child resources (py "icon.ico");
            uxplay_exe :=
              match fs_lookup (fs s)
                      (child (child resources (py "bin")) (py "uxplay.exe")) with
              | Some _ => child (child resources (py "bin")) (py "uxplay.exe")
              | None => child resources (py "uxplay.exe")
              end;
            appdata_dir := APPDATA_DIR;
            arguments_file := child APPDATA_DIR (py "arguments.txt") |}, s).
Proof.
  subst found resources cand.
  unfold Paths_init, bind, Path_is_dir, Path_exists, ret.
  destruct (fs_lookup (fs s) _); reflexivity.
Qed.

Lemma Paths_init_reads : exists P, found = (Ret P, s).
Proof. rewrite Paths_init_value. eauto. Qed.

Lemma Paths_init_exe P :
  found = (Ret P, s) ->
  let ux1 := child (child (resource_dir P) (py "bin")) (py "uxplay.exe") in
  let ux2 := child (resource_dir P) (py "uxplay.exe") in
  uxplay_exe P
  = match fs_lookup (fs s) ux1 with Some _ => ux1 | None => ux2 end.
Proof.
  rewrite Paths_init_value. intros H. injection H as <-. reflexivity.
Qed.

End PathsFacts.

(** X14: [Paths] always names an existing [uxplay.exe] when there is one in
    either of the two places it looks, [bin/uxplay.exe] under the resource
    directory coming first; the path it names is missing only if both
    are. *)
Theorem Paths_finds_bundled_exe (sys : sys_module) (script APPDATA_DIR : path)
    (s : state) :
  exists P,
    Paths_init sys script APPDATA_DIR s = (Ret P, s) /\
    let ux1 := child (child (resource_dir P) (py "bin")) (py "uxplay.exe") in
    let ux2 := child (resource_dir P) (py "uxplay.exe") in
    (is_Some (fs_lookup (fs s) ux1) -> uxplay_exe P = ux1) /\
    (fs_lookup (fs s) (uxplay_exe P) = None <->
     fs_lookup (fs s) ux1 = None /\ fs_lookup (fs s) ux2 = None).
Proof.
  destruct (Paths_init_reads sys script APPDATA_DIR s) as [P HP].
  exists P. split; [exact HP|].
  pose proof (Paths_init_exe sys script APPDATA_DIR s P HP) as Hexe.
  cbn zeta in *. rewrite Hexe.
  destruct (fs_lookup (fs s) (child (child (resource_dir P) (py "bin")) (py "uxplay.exe")))
    as [n|] eqn:E1.
  - split; [reflexivity|]. rewrite E1. split; [congruence | now intros [? _]].
  - split; [now intros [? ?]|]. split; [now split | now intros [_ ?]].
Qed.

(** X15: a [ServerManager] set up with the paths [Paths] has found, on the
    file system they were found on and with no live child: if neither
    place holds [uxplay.exe], [start] reports the top-level path as not
    found and does nothing else; if one does, and the arguments can be read,
    [start] spawns that file, [bin/uxplay.exe] first. *)
Theorem start_uses_found_exe (sys : sys_module) (script APPDATA_DIR : path)
    (s : state) (P : Paths) :
  Paths_init sys script APPDATA_DIR s = (Ret P, s) ->
  running (process s) = false ->
  let self := {| exe_path := uxplay_exe P;
                 arg_mgr := {| file_path := arguments_file P |} |} in
  let ux1 := child (child (resource_dir P) (py "bin")) (py "uxplay.exe") in
  let ux2 := child (resource_dir P) (py "uxplay.exe") in
  (fs_lookup (fs s) ux1 = None -> fs_lookup (fs s) ux2 = None ->
   start self s
   = (Ret tt, add_events [Log ERROR (MsgExeNotFound ux2);
                          ShowError (MsgExeNotFound ux2)] s)) /\
  (forall toks s1,
     is_Some (fs_lookup (fs s) ux1) \/ is_Some (fs_lookup (fs s) ux2) ->
     read_args (arg_mgr self) s = (Ret toks, s1) ->
     let exe := match fs_lookup (fs s) ux1 with Some _ => ux1 | None => ux2 end in
     exists rest,
       trace (snd (start self s))
       = trace s1 ++ [Log INFO (MsgStarting (Path_str exe :: toks));
                      CallPopen (Path_str exe :: toks) true] ++ rest).
Proof.
  intros HP Hidle self ux1 ux2.
  pose proof (Paths_init_exe sys script APPDATA_DIR s P HP) as Hexe.
  cbn zeta in Hexe. fold ux1 ux2 in Hexe.
  split.
  - intros H1 H2. rewrite H1 in Hexe.
    rewrite (start_missing_exe self s Hidle); cbn [exe_path self];
      rewrite Hexe; [reflexivity | exact H2].
  - intros toks s1 Hsome Hread exe.
    assert (Hthere : exists n, fs_lookup (fs s) (exe_path self) = Some n).
    { cbn [exe_path self]. rewrite Hexe.
      destruct (fs_lookup (fs s) ux1) as [n|] eqn:E1; [eauto|].
      destruct Hsome as [[n Hn] | [n Hn]]; [discriminate | eauto]. }
    destruct Hthere as [n Hn].
    rewrite (start_spawns self s n toks s1 Hidle Hn Hread).
    cbn [exe_path self]. rewrite Hexe. fold exe.
    destruct (spawn_oracle s1 (spawns s1) _); cbn [snd];
      eexists; cbn; now rewrite <- !app_assoc.
Qed.

Lemma start_uses_found_exe_witness :
  let sys := {| frozen := true; MEIPASS := None;
                executable := [py "tray.exe"; py "app"; py "C:"] |} in
  let s := Sample.machine Sample.fps_room (Spawned Sample.polite) KeyMissing None in
  exists P rest,
    Paths_init sys [] Sample.appdata_dir s = (Ret P, s) /\
    trace (snd (start {| exe_path := uxplay_exe P;
                         arg_mgr := {| file_path := arguments_file P |} |} s))
    = [Log INFO (MsgStarting [py "C:\app\bin\uxplay.exe"; py "-fps"; py "30";
                              py "-p"; py "My Room"]);
       CallPopen [py "C:\app\bin\uxplay.exe"; py "-fps"; py "30"; py "-p";
                  py "My Room"] true] ++ rest.
Proof.
  intros sys s.
  destruct (Paths_init_reads sys [] Sample.appdata_dir s) as [P HP].
  assert (HP' := HP). vm_compute in HP'. injection HP' as HP'.
  destruct (proj2 (start_uses_found_exe sys [] Sample.appdata_dir s P HP eq_refl)
              [py "-fps"; py "30"; py "-p"; py "My Room"] s)
    as [rest Hrest].
  - left. rewrite <- HP'. vm_compute. eauto.
  - rewrite <- HP'. reflexivity.
  - exists P, rest. split; [exact HP|].
    rewrite Hrest. rewrite <- HP'. reflexivity.
Defined.

(** ** The menu actions *)

Lemma lift_spec {A} (m : M A) (d : desktop) r s' evs :
  m (core d) = (r, s') ->
  trace s' = trace (core d) ++ evs ->
  lift m d
  = (r, {| core := s'; startfile_oracle := startfile_oracle d;
           icon_running := icon_running d;
           ui_trace := ui_trace d ++ List.map Core evs |}).
Proof.
  intros Hm Ht. unfold lift. rewrite Hm, Ht, drop_app_length. reflexivity.
Qed.

(** [stop] only adds to the trace, and keeps what [start] looks at besides
    the tracked child. *)
Lemma stop_keeps (self : ServerManager) s :
  fs (snd (stop self s)) = fs s /\
  spawns (snd (stop self s)) = spawns s /\
  spawn_oracle (snd (stop self s)) = spawn_oracle s /\
  exists evs, trace (snd (stop self s)) = trace s ++ evs.
Proof.
  destruct (running (process s)) eqn:Hrun.
  - apply running_spec in Hrun as (p & Hp & Hlive).
    destruct s as [f o n k t tr]. cbn in Hp. subst t.
    destruct p as [i a st ot ok]. cbn in Hlive. subst st.
    destruct ot as [c| |e]; [| |destruct e];
      destruct ok as [c'| |e']; cbn;
      (repeat split; [try reflexivity..|]);
      rewrite <- ?app_assoc; eexists; reflexivity.
  - rewrite (stop_idle self s Hrun). cbn [snd].
    rewrite add_events_fs, add_events_spawns, add_events_oracle,
      add_events_trace.
    repeat split. eauto.
Qed.

(** On a live child the first call of [stop] is [terminate()]. *)
Lemma stop_live_asks (self : ServerManager) s p :
  process s = Some p -> exit_status p = None ->
  exists evs,
    trace (snd (stop self s))
    = trace s ++ Log INFO (MsgStopping (pid p)) :: CallTerminate (pid p) :: evs.
Proof.
  intros Hp Hlive.
  destruct s as [f o n k t tr]. cbn in Hp. subst t.
  destruct p as [i a st ot ok]. cbn in Hlive. subst st.
  destruct ot as [c| |e]; [| |destruct e];
    destruct ok as [c'| |e']; cbn;
    rewrite <- ?app_assoc; eexists; reflexivity.
Qed.

(** [stop] returns unless the grace period runs out on a live child that
    the kill does not end. *)
Lemma stop_returns_or_not (self : ServerManager) s :
  fst (stop self s) = Ret tt \/
  (fst (stop self s) <> Ret tt /\
   exists p, process s = Some p /\ exit_status p = None /\
             grace_expires p = true /\
             (on_kill p = Survives \/ exists e, on_kill p = Denied e)).
Proof.
  destruct (running (process s)) eqn:Hrun.
  - apply running_spec in Hrun as (p & Hp & Hlive).
    rewrite (stop_live_outcome self s p Hp Hlive).
    destruct (grace_expires p) eqn:Hg; [|now left].
    destruct (on_kill p) eqn:Hk; [now left | |];
      right; (split; [discriminate|]); exists p; eauto 10.
  - left. now rewrite (stop_idle self s Hrun).
Qed.

(** X16: choosing Exit stops the icon exactly when [stop] returns; the
    icon is then stopped last, after everything [stop] did. If the grace
    period runs out on a live child and the kill is refused or without
    effect, [stop] does not return and the icon keeps running. *)
Theorem exit_stops_icon_after_server (self : TrayIcon) (d : desktop) :
  icon_running d = true ->
  let d' := snd (TrayIcon_exit self d) in
  (icon_running d' = true <->
   exists p, process (core d) = Some p /\ exit_status p = None /\
             grace_expires p = true /\
             (on_kill p = Survives \/ exists e, on_kill p = Denied e)) /\
  (icon_running d' = false ->
   fst (TrayIcon_exit self d) = Ret tt /\
   exists evs,
     trace (core d') = trace (core d) ++ evs /\
     ui_trace d'
     = ui_trace d ++ UiLog INFO MsgExitingTray :: List.map Core evs
                  ++ [CallIconStop]).
Proof.
  intros Hicon d'. subst d'.
  destruct (stop_keeps (server_mgr self) (core d)) as (_ & _ & _ & evs & Hevs).
  unfold TrayIcon_exit, ui_bind, ui_emit. cbn beta iota.
  set (d1 := Build_desktop _ _ _ _).
  destruct (stop (server_mgr self) (core d)) as [r s'] eqn:Hstop.
  cbn [snd] in Hevs.
  rewrite (lift_spec (stop (server_mgr self)) d1 r s' evs Hstop Hevs).
  subst d1. unfold icon_stop, ui_bind, ui_emit.
  pose proof (stop_returns_or_not (server_mgr self) (core d)) as Hcases.
  rewrite Hstop in Hcases. cbn [fst] in Hcases.
  destruct Hcases as [-> | [Hne Hchild]].
  - cbn. split.
    + split; [discriminate|].
      intros (p & Hp & Hlive & Hg & Hk).
      pose proof (stop_live_outcome (server_mgr self) (core d) p Hp Hlive) as Ho.
      rewrite Hstop, Hg in Ho. cbn [fst] in Ho.
      destruct Hk as [Hk | [e Hk]]; rewrite Hk in Ho; discriminate Ho.
    + intros _. split; [reflexivity|]. exists evs.
      split; [exact Hevs|]. now rewrite <- !app_assoc.
  - destruct r as [[]|e|]; [now destruct Hne | |]; cbn; rewrite Hicon;
      (split; [split; auto | discriminate]).
Qed.

Lemma exit_stops_icon_after_server_witness :
  let self := {| server_mgr := Sample.server; tray_arg_mgr := Sample.arg_store;
                 auto_mgr := Sample.autostart |} in
  let d := {| core := Sample.machine [] (Spawned Sample.polite) KeyMissing
                        (Some Sample.stubborn);
              startfile_oracle := fun _ => None;
              icon_running := true;
              ui_trace := [] |} in
  icon_running (snd (TrayIcon_exit self d)) = false /\
  fst (TrayIcon_exit self d) = Ret tt.
Proof.
  intros self d.
  assert (Hoff : icon_running (snd (TrayIcon_exit self d)) = false) by reflexivity.
  split; [exact Hoff|].
  exact (proj1 (proj2 (exit_stops_icon_after_server self d eq_refl) Hoff)).
Defined.

(** X17: Restart, on a live child that [stop] gets rid of and with
    [uxplay.exe] in place. If the arguments can be read and the spawn
    succeeds, the new child is tracked in place of the old one. If reading
    the arguments raises, Restart raises too, after the old child was asked
    to terminate and with nothing tracked: the server is left down. *)
Theorem restart_replaces_or_leaves_down (self : TrayIcon) (d : desktop)
    (p : Popen) (n : node) :
  process (core d) = Some p -> exit_status p = None ->
  fst (stop (server_mgr self) (core d)) = Ret tt ->
  fs_lookup (fs (core d)) (exe_path (server_mgr self)) = Some n ->
  let stopped := snd (stop (server_mgr self) (core d)) in
  let d' := snd (TrayIcon_restart self d) in
  (forall toks s1 c,
     read_args (arg_mgr (server_mgr self)) stopped = (Ret toks, s1) ->
     let cmd := Path_str (exe_path (server_mgr self)) :: toks in
     spawn_oracle (core d) (spawns (core d)) cmd = Spawned c ->
     fst (TrayIcon_restart self d) = Ret tt /\
     process (core d') = Some (popen_of cmd c) /\
     spawns (core d') = S (spawns (core d))) /\
  (forall e s1,
     read_args (arg_mgr (server_mgr self)) stopped = (Raise e, s1) ->
     fst (TrayIcon_restart self d) = Raise e /\
     process (core d') = None /\
     In (Core (CallTerminate (pid p))) (ui_trace d')).
Proof.
  intros Hp Hlive Hret Hexe stopped d'.
  destruct (stop_keeps (server_mgr self) (core d)) as (Hfs & Hn & Ho & _).
  destruct (stop_live_asks (server_mgr self) (core d) p Hp Hlive) as [evs Hevs].
  assert (Hnone : process stopped = None).
  { apply (stop_live_clears (server_mgr self) (core d) p Hp Hlive).
    rewrite Hret. discriminate. }
  assert (Hidle : running (process stopped) = false) by now rewrite Hnone.
  assert (Hexe' : fs_lookup (fs stopped) (exe_path (server_mgr self)) = Some n).
  { subst stopped. now rewrite Hfs. }
  assert (Hrun : fst (TrayIcon_restart self d) = fst (start (server_mgr self) stopped)
                 /\ core d' = snd (start (server_mgr self) stopped)
                 /\ In (Core (CallTerminate (pid p))) (ui_trace d')).
  { subst d' stopped.
    unfold TrayIcon_restart, ui_bind, ui_emit. cbn beta iota.
    set (d1 := Build_desktop _ _ _ _).
    destruct (stop (server_mgr self) (core d)) as [r s'] eqn:Hstop.
    cbn [fst snd] in *. subst r.
    rewrite (lift_spec (stop (server_mgr self)) d1 _ s' _ Hstop Hevs).
    unfold lift. cbn [core]. 
    destruct (start (server_mgr self) s') as [r2 s2]. cbn.
    repeat split. rewrite !in_app_iff. left. right. cbn. auto. }
  destruct Hrun as (Hr & Hc & Hin). split.
  - intros toks s1 c Hread cmd Hspawn.
    rewrite Hr, Hc.
    rewrite (start_spawn_succeeds (server_mgr self) stopped s1 n toks
               Hidle Hexe' Hread c).
    + cbn. subst stopped. now rewrite Hn.
    + subst stopped. now rewrite Ho, Hn.
  - intros e s1 Hread. rewrite Hr, Hc.
    rewrite (start_read_raises (server_mgr self) stopped n e s1 Hidle Hexe' Hread).
    cbn [fst snd]. repeat split; [|exact Hin].
    destruct (read_args_frame (arg_mgr (server_mgr self)) stopped) as [evs' Hf].
    rewrite Hread in Hf. cbn [snd] in Hf. subst s1.
    now rewrite add_events_process.
Qed.

Lemma restart_replaces_or_leaves_down_witness :
  let self := {| server_mgr := Sample.server; tray_arg_mgr := Sample.arg_store;
                 auto_mgr := Sample.autostart |} in
  let d := {| core := Sample.machine Sample.ansi_cafe (Spawned Sample.polite)
                        KeyMissing (Some Sample.stubborn);
              startfile_oracle := fun _ => None;
              icon_running := true;
              ui_trace := [] |} in
  fst (TrayIcon_restart self d) = Raise UnicodeDecodeError /\
  process (core (snd (TrayIcon_restart self d))) = None.
Proof.
  intros self d.
  assert (H1 : fst (stop (server_mgr self) (core d)) = Ret tt)
    by (vm_compute; reflexivity).
  assert (H2 : fs_lookup (fs (core d)) (exe_path (server_mgr self))
               = Some (File []))
    by (vm_compute; reflexivity).
  assert (H3 : read_args (arg_mgr (server_mgr self))
                 (snd (stop (server_mgr self) (core d)))
               = (Raise UnicodeDecodeError,
                  snd (stop (server_mgr self) (core d)))).
  { apply read_args_undecodable with (bytes := Sample.ansi_cafe);
      vm_compute; reflexivity. }
  destruct (proj2 (restart_replaces_or_leaves_down self d Sample.stubborn
                     (File []) eq_refl eq_refl H1 H2)
              UnicodeDecodeError
              (snd (stop Sample.server (core d))) H3)
    as (Hr & Hnone & _).
  split; [exact Hr | exact Hnone].
Defined.

(** ** Opening the argument file *)

Lemma ensure_exists_blocked (self : ArgumentManager) s :
  blocked (fs s) (parent (file_path self)) = true ->
  ensure_exists self s
  = (Raise FileExistsError,
     add_events [Log INFO (MsgEnsuringArgs (file_path self))] s).
Proof.
  intros Hb.
  destruct (ensure_exists_cases self s) as [(_ & e & He) | (Hfree & _)];
    [|congruence].
  rewrite He. f_equal. f_equal.
  revert He. unfold ensure_exists, bind, logging_info, emit.
  set (s0 := add_event _ s).
  pose proof (mkdir_parents_spec (parent (file_path self)) true s0) as Hm.
  destruct (mkdir_parents (parent (file_path self)) true s0)
    as [[[]|e0|] s1] eqn:Em.
  - destruct Hm as (Hfree & _). change (fs s0) with (fs s) in Hfree.
    congruence.
  - intros [= <-]. exact (mkdir_parents_raises _ _ _ _ Em).
  - discriminate.
Qed.

Lemma ensure_exists_extends (self : ArgumentManager) s :
  exists evs, trace (snd (ensure_exists self s)) = trace s ++ evs.
Proof.
  unfold ensure_exists, bind, logging_info, emit.
  set (s0 := add_event _ s).
  pose proof (mkdir_parents_spec (parent (file_path self)) true s0) as Hm.
  destruct (mkdir_parents (parent (file_path self)) true s0) as [[[]|e|] s1].
  - destruct Hm as (_ & _ & _ & _ & Hs1).
    assert (Ht : trace s1 = trace s0) by now rewrite Hs1.
    unfold Path_exists.
    destruct (fs_lookup (fs s1) (file_path self)) eqn:E; cbn [negb snd].
    + unfold ret. cbn [snd]. rewrite Ht. cbn. eauto.
    + unfold write_text. rewrite E.
      destruct (is_dir (fs s1) (parent (file_path self)));
        cbn; rewrite Ht; cbn; rewrite <- ?app_assoc; eauto.
  - destruct Hm as [-> _]. cbn. eauto.
  - destruct Hm.
Qed.

(** X18: Edit Arguments. If a regular file is in the way of the argument
    file's directory, the [FileExistsError] of [ensure_exists] leaves the
    action: nothing is opened and no popup is shown. Otherwise the action
    returns whatever [os.startfile] does: the file exists, it is handed to
    [os.startfile] once, and an exception raised there is logged and shown,
    not passed on. *)
Theorem open_args_outcome (self : TrayIcon) (d : desktop) :
  let file := file_path (tray_arg_mgr self) in
  let r := fst (TrayIcon_open_args self d) in
  let d' := snd (TrayIcon_open_args self d) in
  (blocked (fs (core d)) (parent file) = true ->
   r = Raise FileExistsError /\
   ui_trace d' = ui_trace d ++ [Core (Log INFO (MsgEnsuringArgs file))]) /\
  (blocked (fs (core d)) (parent file) = false ->
   r = Ret tt /\
   is_Some (fs_lookup (fs (core d')) file) /\
   exists evs,
     ui_trace d'
     = ui_trace d ++ List.map Core evs
       ++ CallStartfile (Path_str file)
          :: match startfile_oracle d (Path_str file) with
             | None => [UiLog INFO MsgOpenedArgs]
             | Some e => [UiLog ERROR MsgFailedOpenArgs;
                          UiShowError (MsgFailedOpenArgsWith e)]
             end).
Proof.
  intros file r d'. subst r d'. split.
  - intros Hb.
    pose proof (ensure_exists_blocked (tray_arg_mgr self) (core d) Hb) as He.
    assert (Hrun : exists d1,
              TrayIcon_open_args self d = (Raise FileExistsError, d1) /\
              ui_trace d1
              = ui_trace d ++ [Core (Log INFO (MsgEnsuringArgs file))]).
    { unfold TrayIcon_open_args, ui_bind at 1.
      rewrite (lift_spec (ensure_exists (tray_arg_mgr self)) d _ _
                 [Log INFO (MsgEnsuringArgs file)] He)
        by (cbn; reflexivity).
      eexists. split; reflexivity. }
    destruct Hrun as (d1 & -> & Ht). split; [reflexivity | exact Ht].
  - intros Hfree. unfold TrayIcon_open_args, ui_bind.
    destruct (ensure_exists_extends (tray_arg_mgr self) (core d)) as [evs Hevs].
    destruct (ensure_exists_cases (tray_arg_mgr self) (core d))
      as [(Hb & _) | (_ & Hret & _ & Hfile)]; [fold file in Hb; congruence|].
    destruct (ensure_exists (tray_arg_mgr self) (core d)) as [r1 s1] eqn:He.
    cbn [fst snd] in *. subst r1.
    rewrite (lift_spec (ensure_exists (tray_arg_mgr self)) d _ s1 evs He Hevs).
    unfold ui_try_except, os_startfile, ui_bind, ui_emit.
    cbn [startfile_oracle core icon_running ui_trace fst snd]. fold file.
    assert (Hthere : is_Some (fs_lookup (fs s1) file)).
    { unfold file. rewrite Hfile. destruct (fs_lookup (fs (core d)) _); eauto. }
    destruct (startfile_oracle d (Path_str file)) as [e|]; cbn;
      (split; [reflexivity|]); (split; [exact Hthere|]);
      exists evs; rewrite <- !app_assoc; reflexivity.
Qed.

Lemma open_args_outcome_witness :
  let self := {| server_mgr := Sample.server; tray_arg_mgr := Sample.arg_store;
                 auto_mgr := Sample.autostart |} in
  let d := {| core := set_fs Sample.bare_disk
                        (Sample.machine [] (Spawned Sample.polite) KeyMissing None);
              startfile_oracle := fun _ => Some OSError;
              icon_running := true;
              ui_trace := [] |} in
  fst (TrayIcon_open_args self d) = Ret tt /\
  is_Some (fs_lookup (fs (core (snd (TrayIcon_open_args self d))))
             Sample.arguments_file).
Proof.
  intros self d.
  assert (Hfree : blocked (fs (core d)) (parent (file_path (tray_arg_mgr self)))
                  = false)
    by (vm_compute; reflexivity).
  destruct (proj2 (open_args_outcome self d) Hfree) as (Hr & Hfile & _).
  split; [exact Hr | exact Hfile].
Defined.

(** ** Managers keep to their own part of the state *)

(** X19: the four operations of [AutoStartManager] change nothing but the
    [Run] key and the log: files, the tracked child and the count of spawns
    are as before. *)
Theorem autostart_frame (self : AutoStartManager) (s : state) :
  let untouched (s' : state) :=
    fs s' = fs s /\ process s' = process s /\ spawns s' = spawns s in
  untouched (snd (is_enabled self s)) /\
  untouched (snd (enable self s)) /\
  untouched (snd (disable self s)) /\
  untouched (snd (toggle self s)).
Proof.
  assert (He : forall t,
            fs (snd (enable self t)) = fs t /\
            process (snd (enable self t)) = process t /\
            spawns (snd (enable self t)) = spawns t).
  { intros t. destruct (run_key t) as [|r [|] vals] eqn:E.
    - rewrite enable_refused by now rewrite E. cbn [snd].
      now rewrite add_events_fs, add_events_process, add_events_spawns.
    - rewrite (enable_writable self t r vals E). cbn [snd].
      now rewrite add_events_fs, add_events_process, add_events_spawns.
    - rewrite enable_refused by now rewrite E. cbn [snd].
      now rewrite add_events_fs, add_events_process, add_events_spawns. }
  assert (Hd : forall t,
            fs (snd (disable self t)) = fs t /\
            process (snd (disable self t)) = process t /\
            spawns (snd (disable self t)) = spawns t).
  { intros t. destruct (run_key t) as [|r [|] vals] eqn:E.
    - step_registry. now rewrite E.
    - destruct (disable_writable self t r vals E) as [evs ->]. cbn [snd].
      now rewrite add_events_fs, add_events_process, add_events_spawns.
    - step_registry. now rewrite E. }
  intros untouched. subst untouched. cbn beta.
  split; [|split; [apply He | split; [apply Hd|]]].
  - destruct (is_enabled_eq self s) as [evs ->]. cbn [snd].
    now rewrite add_events_fs, add_events_process, add_events_spawns.
  - destruct (toggle_eq self s) as [evs ->].
    destruct (enabled_in self (run_key s)).
    + destruct (Hd (add_events evs s)) as (-> & -> & ->).
      now rewrite add_events_fs, add_events_process, add_events_spawns.
    + destruct (He (add_events evs s)) as (-> & -> & ->).
      now rewrite add_events_fs, add_events_process, add_events_spawns.
Qed.

(** X20: [stop] right after a [start] that spawned a child asks that very
    child to terminate, and, unless it blocks on it, leaves nothing
    tracked. *)
Theorem stop_after_start (self : ServerManager) (s s1 : state) (n : node)
    (toks : list str) (c : Popen) :
  running (process s) = false ->
  fs_lookup (fs s) (exe_path self) = Some n ->
  read_args (arg_mgr self) s = (Ret toks, s1) ->
  spawn_oracle s (spawns s) (Path_str (exe_path self) :: toks) = Spawned c ->
  exit_status c = None ->
  let started := snd (start self s) in
  let stopped := snd (stop self started) in
  (exists evs,
     trace stopped
     = trace started ++ Log INFO (MsgStopping (pid c))
                     :: CallTerminate (pid c) :: evs) /\
  (fst (stop self started) <> Hang -> process stopped = None).
Proof.
  intros Hidle Hexe Hread Ho Hlive started stopped.
  assert (Hp : process started
               = Some (popen_of (Path_str (exe_path self) :: toks) c)).
  { subst started.
    now rewrite (start_spawn_succeeds self s s1 n toks Hidle Hexe Hread c Ho). }
  split.
  - exact (stop_live_asks self started _ Hp Hlive).
  - exact (stop_live_clears self started _ Hp Hlive).
Qed.

Lemma stop_after_start_witness :
  let s := Sample.machine Sample.fps_room (Spawned Sample.stubborn)
             KeyMissing None in
  process (snd (stop Sample.server (snd (start Sample.server s)))) = None.
Proof.
  intros s.
  assert (Hback : fst (stop Sample.server (snd (start Sample.server s))) <> Hang)
    by (vm_compute; discriminate).
  exact (proj2 (stop_after_start Sample.server s s (File [])
                  [py "-fps"; py "30"; py "-p"; py "My Room"] Sample.stubborn
                  eq_refl eq_refl eq_refl eq_refl eq_refl) Hback).
Defined.
